(** * xBOUT region decomposition: a shallow embedding of [xbout/region.py]

    The development follows the Python module top to bottom: the [Region]
    class and its slice methods, the helpers [_in_range] and [_order_vars],
    the classifier [_get_topology], the wiring helpers
    [_create_connection_x] / [_create_connection_y] and the builder
    [_create_regions_toroidal].

    Python integers are unbounded, so they are [Z].  A Python [dict] with
    string keys is an insertion-ordered association list with unique keys.
    Exceptions are the left summand of a [result]. *)

From Stdlib Require Import ZArith String List Bool Lia.
Import ListNotations.

Open Scope string_scope.
Open Scope Z_scope.

(** ** Exceptions and the error monad *)

Inductive exception : Type :=
| KeyError (key : string)
| NotImplementedError (msg : string).

Definition result (A : Type) : Type := (exception + A)%type.

Definition ret {A : Type} (a : A) : result A := inr a.

Definition bind {A B : Type} (m : result A) (f : A -> result B) : result B :=
  match m with
  | inl e => inl e
  | inr a => f a
  end.

Notation "x <- m ;; k" := (bind m (fun x => k))
  (at level 100, m at next level, right associativity, only parsing).

(** ** Python dictionaries keyed by strings *)

Definition dict (V : Type) : Type := list (string * V).

(** [d[k]]: the value stored under [k], or [KeyError]. *)
Fixpoint getitem {V : Type} (d : dict V) (k : string) : result V :=
  match d with
  | [] => inl (KeyError k)
  | (k', v) :: d' => if String.eqb k k' then inr v else getitem d' k
  end.

(** [d[k] = v]: overwrite in place when [k] is present, append otherwise. *)
Fixpoint setitem {V : Type} (d : dict V) (k : string) (v : V) : dict V :=
  match d with
  | [] => [(k, v)]
  | (k', v') :: d' =>
      if String.eqb k k' then (k', v) :: d' else (k', v') :: setitem d' k v
  end.

Definition keys {V : Type} (d : dict V) : list string := map fst d.

(** ** Slices

    [slice(start, stop)] with both bounds given and the default step. *)

Record slice : Type := mkslice { start : Z; stop : Z }.

(** The half-open index range a slice denotes on non-negative bounds. *)
Definition in_slice (s : slice) (i : Z) : bool :=
  (start s <=? i) && (i <? stop s).

Definition slice_width (s : slice) : Z := stop s - start s.

(** ** class Region (region.py, lines 6-102) *)

Record Region : Type := mkRegion {
  name : string;
  xinner_ind : Z;
  xouter_ind : Z;
  ylower_ind : Z;
  yupper_ind : Z;
  connection_inner : option string;
  connection_outer : option string;
  connection_lower : option string;
  connection_upper : option string
}.

(** [Region(name=..., xinner_ind=..., ...)] as every call site in the module
    uses it: the four [connect_*] keywords keep their default [None]. *)
Definition Region_init (name : string)
    (xinner_ind xouter_ind ylower_ind yupper_ind : Z) : Region :=
  mkRegion name xinner_ind xouter_ind ylower_ind yupper_ind
           None None None None.

Definition is_not_None {A : Type} (o : option A) : bool :=
  match o with
  | Some _ => true
  | None => false
  end.

(** Lines 25-50.  The second conditional updates [xi], as the source does. *)
Definition getSlices (self : Region) (mxg myg : Z) : slice * slice :=
  let xi := xinner_ind self in
  let xi := if is_not_None (connection_inner self) then xi - mxg else xi in
  let xo := xouter_ind self in
  let xi := if is_not_None (connection_outer self) then xi + mxg else xi in
  let yl := ylower_ind self in
  let yl := if is_not_None (connection_lower self) then yl - myg else yl in
  let yu := yupper_ind self in
  let yu := if is_not_None (connection_upper self) then yu + myg else yu in
  (mkslice xi xo, mkslice yl yu).

(** Lines 52-63. *)
Definition getInnerGuardsSlices (self : Region) (mxg : Z) : slice * slice :=
  (mkslice (xinner_ind self - mxg) (xinner_ind self),
   mkslice (ylower_ind self) (yupper_ind self)).

(** Lines 65-76. *)
Definition getOuterGuardsSlices (self : Region) (mxg : Z) : slice * slice :=
  (mkslice (xouter_ind self) (xouter_ind self + mxg),
   mkslice (ylower_ind self) (yupper_ind self)).

(** Lines 78-89. *)
Definition getLowerGuardsSlices (self : Region) (myg : Z) : slice * slice :=
  (mkslice (xinner_ind self) (xouter_ind self),
   mkslice (ylower_ind self - myg) (ylower_ind self)).

(** Lines 91-102. *)
Definition getUpperGuardsSlices (self : Region) (myg : Z) : slice * slice :=
  (mkslice (xinner_ind self) (xouter_ind self),
   mkslice (yupper_ind self) (yupper_ind self + myg)).

(** The full-region slice as the specification words it: each bound moves
    outward by the guard width exactly when that side has a connection. *)
Definition getSlices_spec (r : Region) (mxg myg : Z) : slice * slice :=
  (mkslice
     (if is_not_None (connection_inner r) then xinner_ind r - mxg
      else xinner_ind r)
     (if is_not_None (connection_outer r) then xouter_ind r + mxg
      else xouter_ind r),
   mkslice
     (if is_not_None (connection_lower r) then ylower_ind r - myg
      else ylower_ind r)
     (if is_not_None (connection_upper r) then yupper_ind r + myg
      else yupper_ind r)).

(** ** Helpers (lines 105-118) *)

Definition _in_range (val lower upper : Z) : Z :=
  if val <? lower then lower
  else if val >? upper then upper
  else val.

Definition _order_vars (lower upper : Z) : Z * Z :=
  if upper <? lower then (upper, lower) else (lower, upper).

(** ** Mesh metadata

    [ds.metadata] restricted to the keys the module reads, every one of them
    present.  The two [keep_*boundaries] entries are 0/1 flags (comments at
    lines 184 and 199); [Z.b2z] gives their integer value. *)

Module metadata.
Record t : Type := mk {
  nx : Z;
  ny : Z;
  ny_inner : Z;
  ixseps1 : Z;
  ixseps2 : Z;
  jyseps1_1 : Z;
  jyseps2_1 : Z;
  jyseps1_2 : Z;
  jyseps2_2 : Z;
  MXG : Z;
  MYG : Z;
  keep_xboundaries : bool;
  keep_yboundaries : bool
}.
End metadata.

(** ** _get_topology (lines 121-150) *)

Definition _get_topology (ds : metadata.t) : string :=
  let jys11 := metadata.jyseps1_1 ds in
  let jys21 := metadata.jyseps2_1 ds in
  let jys12 := metadata.jyseps1_2 ds in
  let jys22 := metadata.jyseps2_2 ds in
  let ny := metadata.ny ds in
  let ixs1 := metadata.ixseps1 ds in
  let ixs2 := metadata.ixseps2 ds in
  let nx := metadata.nx ds in
  if jys21 =? jys12 then
    if (jys11 <=? 0) && (jys22 >=? ny - 1) then
      let ix := Z.min ixs1 ixs2 in
      if ix >=? nx - 1 then "core"
      else if ix <=? 0 then "sol"
      else "limiter"
    else "single-null"
  else if (jys11 =? jys21) && (jys12 =? jys22) then "xpoint"
  else if ixs1 =? ixs2 then "connected-double-null"
  else "disconnected-double-null".

(** ** Connection wiring (lines 153-160)

    [regions[inner].connection_outer = outer] mutates the object stored under
    [inner]; the second statement reads the dictionary after that mutation,
    which is what makes a self-connection ([inner = outer]) keep both links. *)

Definition set_connection_inner (r : Region) (c : option string) : Region :=
  mkRegion (name r) (xinner_ind r) (xouter_ind r) (ylower_ind r)
           (yupper_ind r) c (connection_outer r) (connection_lower r)
           (connection_upper r).

Definition set_connection_outer (r : Region) (c : option string) : Region :=
  mkRegion (name r) (xinner_ind r) (xouter_ind r) (ylower_ind r)
           (yupper_ind r) (connection_inner r) c (connection_lower r)
           (connection_upper r).

Definition set_connection_lower (r : Region) (c : option string) : Region :=
  mkRegion (name r) (xinner_ind r) (xouter_ind r) (ylower_ind r)
           (yupper_ind r) (connection_inner r) (connection_outer r) c
           (connection_upper r).

Definition set_connection_upper (r : Region) (c : option string) : Region :=
  mkRegion (name r) (xinner_ind r) (xouter_ind r) (ylower_ind r)
           (yupper_ind r) (connection_inner r) (connection_outer r)
           (connection_lower r) c.

Definition _create_connection_x (regions : dict Region) (inner outer : string)
  : result (dict Region) :=
  r <- getitem regions inner ;;
  let regions := setitem regions inner (set_connection_outer r (Some outer)) in
  r <- getitem regions outer ;;
  ret (setitem regions outer (set_connection_inner r (Some inner))).

Definition _create_connection_y (regions : dict Region) (lower upper : string)
  : result (dict Region) :=
  r <- getitem regions lower ;;
  let regions := setitem regions lower (set_connection_upper r (Some upper)) in
  r <- getitem regions upper ;;
  ret (setitem regions upper (set_connection_lower r (Some lower))).

(** ** _create_regions_toroidal (lines 163-418)

    The function is split where the source has its blank lines and comments:
    the locals after "Make sure all sizes are sensible" and "Adjust for
    boundary cells" (lines 171-209) are [adjust_breakpoints], and each arm of
    the [if topology == ...] chain (lines 212-414) is one table below.  The
    unused [coordinates] dictionary is left out.  The source ends by
    attaching [regions] to the dataset through the external
    [_set_attrs_on_all_vars]; the embedding returns [regions] itself. *)

(** The local variables of the builder once line 209 has run. *)
Record breakpoints : Type := mkbreakpoints {
  ixs1 : Z;
  ixs2 : Z;
  nx : Z;
  jys11 : Z;
  jys21 : Z;
  nyinner : Z;
  jys12 : Z;
  jys22 : Z;
  ny : Z
}.

(** Lines 171-209. *)
Definition adjust_breakpoints (ds : metadata.t) : breakpoints :=
  let ixs1 := metadata.ixseps1 ds in
  let ixs2 := metadata.ixseps2 ds in
  let nx := metadata.nx ds in
  let jys11 := metadata.jyseps1_1 ds in
  let jys21 := metadata.jyseps2_1 ds in
  let nyinner := metadata.ny_inner ds in
  let jys12 := metadata.jyseps1_2 ds in
  let jys22 := metadata.jyseps2_2 ds in
  let ny := metadata.ny ds in
  let mxg := metadata.MXG ds in
  let myg := metadata.MYG ds in
  let ybndry := Z.b2z (metadata.keep_yboundaries ds) * myg in
  (* Make sure all sizes are sensible *)
  let ixs1 := _in_range ixs1 0 nx in
  let ixs2 := _in_range ixs2 0 nx in
  let '(ixs1, ixs2) := _order_vars ixs1 ixs2 in
  let jys11 := _in_range jys11 0 (ny - 1) in
  let jys21 := _in_range jys21 0 (ny - 1) in
  let jys12 := _in_range jys12 0 (ny - 1) in
  let '(jys21, jys12) := _order_vars jys21 jys12 in
  let nyinner := _in_range nyinner (jys21 + 1) (jys12 + 1) in
  let jys22 := _in_range jys22 0 (ny - 1) in
  (* Adjust for boundary cells *)
  let '(ixs1, ixs2, nx) :=
    if negb (metadata.keep_xboundaries ds)
    then (ixs1 - mxg, ixs2 - mxg, nx - 2 * mxg)
    else (ixs1, ixs2, nx) in
  let jys11 := jys11 + ybndry in
  let jys21 := jys21 + ybndry in
  let nyinner := nyinner + 2 * ybndry in
  let jys12 := jys12 + 3 * ybndry in
  let jys22 := jys22 + 3 * ybndry in
  let ny := ny + 4 * ybndry in
  mkbreakpoints ixs1 ixs2 nx jys11 jys21 nyinner jys12 jys22 ny.

(** Lines 213-291. *)
Definition regions_disconnected_double_null (b : breakpoints)
  : result (dict Region) :=
  let regions := [] in
  let regions := setitem regions "lower_inner_PFR"
    (Region_init "lower_inner_PFR" 0 (ixs1 b) 0 (jys11 b + 1)) in
  let regions := setitem regions "lower_inner_intersep"
    (Region_init "lower_inner_intersep" (ixs1 b) (ixs2 b) 0 (jys11 b + 1)) in
  let regions := setitem regions "lower_inner_SOL"
    (Region_init "lower_inner_SOL" (ixs2 b) (nx b) 0 (jys11 b + 1)) in
  let regions := setitem regions "inner_core"
    (Region_init "inner_core" 0 (ixs1 b) (jys11 b + 1) (jys21 b + 1)) in
  let regions := setitem regions "inner_intersep"
    (Region_init "inner_intersep" (ixs1 b) (ixs2 b)
                 (jys11 b + 1) (jys21 b + 1)) in
  let regions := setitem regions "inner_SOL"
    (Region_init "inner_SOL" (ixs2 b) (nx b) (jys11 b + 1) (jys21 b + 1)) in
  let regions := setitem regions "upper_inner_PFR"
    (Region_init "upper_inner_PFR" 0 (ixs1 b) (jys21 b + 1) (nyinner b)) in
  let regions := setitem regions "upper_inner_intersep"
    (Region_init "upper_inner_intersep" (ixs1 b) (ixs2 b)
                 (jys21 b + 1) (nyinner b)) in
  let regions := setitem regions "upper_inner_SOL"
    (Region_init "upper_inner_SOL" (ixs2 b) (nx b)
                 (jys21 b + 1) (nyinner b)) in
  let regions := setitem regions "upper_outer_PFR"
    (Region_init "upper_outer_PFR" 0 (ixs1 b) (nyinner b) (jys12 b + 1)) in
  let regions := setitem regions "upper_outer_intersep"
    (Region_init "upper_outer_intersep" (ixs1 b) (ixs2 b)
                 (nyinner b) (jys12 b + 1)) in
  let regions := setitem regions "upper_outer_SOL"
    (Region_init "upper_outer_SOL" (ixs2 b) (nx b)
                 (nyinner b) (jys12 b + 1)) in
  let regions := setitem regions "outer_core"
    (Region_init "outer_core" 0 (ixs1 b) (jys12 b + 1) (jys22 b + 1)) in
  let regions := setitem regions "outer_intersep"
    (Region_init "outer_intersep" (ixs1 b) (ixs2 b)
                 (jys12 b + 1) (jys22 b + 1)) in
  let regions := setitem regions "outer_SOL"
    (Region_init "outer_SOL" (ixs2 b) (nx b) (jys12 b + 1) (jys22 b + 1)) in
  let regions := setitem regions "lower_outer_PFR"
    (Region_init "lower_outer_PFR" 0 (ixs1 b) (jys22 b + 1) (ny b)) in
  let regions := setitem regions "lower_outer_intersep"
    (Region_init "lower_outer_intersep" (ixs1 b) (ixs2 b)
                 (jys22 b + 1) (ny b)) in
  let regions := setitem regions "lower_outer_SOL"
    (Region_init "lower_outer_SOL" (ixs2 b) (nx b) (jys22 b + 1) (ny b)) in
  regions <- _create_connection_x regions
               "lower_inner_PFR" "lower_inner_intersep" ;;
  regions <- _create_connection_x regions
               "lower_inner_intersep" "lower_inner_SOL" ;;
  regions <- _create_connection_x regions "inner_core" "inner_intersep" ;;
  regions <- _create_connection_x regions "inner_intersep" "inner_SOL" ;;
  regions <- _create_connection_x regions
               "upper_inner_PFR" "upper_inner_intersep" ;;
  regions <- _create_connection_x regions
               "upper_inner_intersep" "upper_inner_SOL" ;;
  regions <- _create_connection_x regions
               "upper_outer_PFR" "upper_outer_intersep" ;;
  regions <- _create_connection_x regions
               "upper_outer_intersep" "upper_outer_SOL" ;;
  regions <- _create_connection_x regions "outer_core" "outer_intersep" ;;
  regions <- _create_connection_x regions "outer_intersep" "outer_SOL" ;;
  regions <- _create_connection_x regions
               "lower_outer_PFR" "lower_outer_intersep" ;;
  regions <- _create_connection_x regions
               "lower_outer_intersep" "lower_outer_SOL" ;;
  regions <- _create_connection_y regions
               "lower_inner_PFR" "lower_outer_PFR" ;;
  regions <- _create_connection_y regions
               "lower_inner_intersep" "inner_intersep" ;;
  regions <- _create_connection_y regions "lower_inner_SOL" "inner_SOL" ;;
  regions <- _create_connection_y regions "inner_core" "outer_core" ;;
  regions <- _create_connection_y regions "outer_core" "inner_core" ;;
  regions <- _create_connection_y regions
               "inner_intersep" "outer_intersep" ;;
  regions <- _create_connection_y regions "inner_SOL" "upper_inner_SOL" ;;
  regions <- _create_connection_y regions
               "upper_outer_intersep" "upper_inner_intersep" ;;
  regions <- _create_connection_y regions
               "upper_outer_PFR" "upper_inner_PFR" ;;
  regions <- _create_connection_y regions "upper_outer_SOL" "outer_SOL" ;;
  regions <- _create_connection_y regions
               "outer_intersep" "lower_outer_intersep" ;;
  regions <- _create_connection_y regions "outer_SOL" "lower_outer_SOL" ;;
  ret regions.

(** Lines 292-342. *)
Definition regions_connected_double_null (b : breakpoints)
  : result (dict Region) :=
  let regions := [] in
  let regions := setitem regions "lower_inner_PFR"
    (Region_init "lower_inner_PFR" 0 (ixs1 b) 0 (jys11 b + 1)) in
  let regions := setitem regions "lower_inner_SOL"
    (Region_init "lower_inner_SOL" (ixs2 b) (nx b) 0 (jys11 b + 1)) in
  let regions := setitem regions "inner_core"
    (Region_init "inner_core" 0 (ixs1 b) (jys11 b + 1) (jys21 b + 1)) in
  let regions := setitem regions "inner_SOL"
    (Region_init "inner_SOL" (ixs2 b) (nx b) (jys11 b + 1) (jys21 b + 1)) in
  let regions := setitem regions "upper_inner_PFR"
    (Region_init "upper_inner_PFR" 0 (ixs1 b) (jys21 b + 1) (nyinner b)) in
  let regions := setitem regions "upper_inner_SOL"
    (Region_init "upper_inner_SOL" (ixs2 b) (nx b)
                 (jys21 b + 1) (nyinner b)) in
  let regions := setitem regions "upper_outer_PFR"
    (Region_init "upper_outer_PFR" 0 (ixs1 b) (nyinner b) (jys12 b + 1)) in
  let regions := setitem regions "upper_outer_SOL"
    (Region_init "upper_outer_SOL" (ixs2 b) (nx b)
                 (nyinner b) (jys12 b + 1)) in
  let regions := setitem regions "outer_core"
    (Region_init "outer_core" 0 (ixs1 b) (jys12 b + 1) (jys22 b + 1)) in
  let regions := setitem regions "outer_SOL"
    (Region_init "outer_SOL" (ixs2 b) (nx b) (jys12 b + 1) (jys22 b + 1)) in
  let regions := setitem regions "lower_outer_PFR"
    (Region_init "lower_outer_PFR" 0 (ixs1 b) (jys22 b + 1) (ny b)) in
  let regions := setitem regions "lower_outer_SOL"
    (Region_init "lower_outer_SOL" (ixs2 b) (nx b) (jys22 b + 1) (ny b)) in
  regions <- _create_connection_x regions
               "lower_inner_PFR" "lower_inner_SOL" ;;
  regions <- _create_connection_x regions "inner_core" "inner_SOL" ;;
  regions <- _create_connection_x regions
               "upper_inner_PFR" "upper_inner_SOL" ;;
  regions <- _create_connection_x regions
               "upper_outer_PFR" "upper_outer_SOL" ;;
  regions <- _create_connection_x regions "outer_core" "outer_SOL" ;;
  regions <- _create_connection_x regions
               "lower_outer_PFR" "lower_outer_SOL" ;;
  regions <- _create_connection_y regions
               "lower_inner_PFR" "lower_outer_PFR" ;;
  regions <- _create_connection_y regions "lower_inner_SOL" "inner_SOL" ;;
  regions <- _create_connection_y regions "inner_core" "outer_core" ;;
  regions <- _create_connection_y regions "outer_core" "inner_core" ;;
  regions <- _create_connection_y regions "inner_SOL" "upper_inner_SOL" ;;
  regions <- _create_connection_y regions
               "upper_outer_PFR" "upper_inner_PFR" ;;
  regions <- _create_connection_y regions "upper_outer_SOL" "outer_SOL" ;;
  regions <- _create_connection_y regions "outer_SOL" "lower_outer_SOL" ;;
  ret regions.

(** Lines 343-365.  The last two entries are stored under the keys
    ["outer_PFR"] and ["outer_SOL"] with the [name] arguments ["lower_PFR"]
    and ["lower_SOL"], and the ["SOL"] entry starts at [ixs2], as written. *)
Definition regions_single_null (b : breakpoints) : result (dict Region) :=
  let regions := [] in
  let regions := setitem regions "inner_PFR"
    (Region_init "inner_PFR" 0 (ixs1 b) 0 (jys11 b + 1)) in
  let regions := setitem regions "inner_SOL"
    (Region_init "inner_SOL" (ixs1 b) (nx b) 0 (jys11 b + 1)) in
  let regions := setitem regions "core"
    (Region_init "core" 0 (ixs1 b) (jys11 b + 1) (jys22 b + 1)) in
  let regions := setitem regions "SOL"
    (Region_init "SOL" (ixs2 b) (nx b) (jys11 b + 1) (jys22 b + 1)) in
  let regions := setitem regions "outer_PFR"
    (Region_init "lower_PFR" 0 (ixs1 b) (jys22 b + 1) (ny b)) in
  let regions := setitem regions "outer_SOL"
    (Region_init "lower_SOL" (ixs1 b) (nx b) (jys22 b + 1) (ny b)) in
  regions <- _create_connection_x regions "inner_PFR" "inner_SOL" ;;
  regions <- _create_connection_x regions "core" "SOL" ;;
  regions <- _create_connection_x regions "outer_PFR" "outer_SOL" ;;
  regions <- _create_connection_y regions "inner_PFR" "outer_PFR" ;;
  regions <- _create_connection_y regions "inner_SOL" "SOL" ;;
  regions <- _create_connection_y regions "core" "core" ;;
  regions <- _create_connection_y regions "SOL" "outer_SOL" ;;
  ret regions.

(** Lines 366-372. *)
Definition regions_limiter (b : breakpoints) : result (dict Region) :=
  let regions := [] in
  let regions := setitem regions "core"
    (Region_init "core" 0 (ixs1 b) 0 (ny b)) in
  let regions := setitem regions "SOL"
    (Region_init "SOL" (ixs1 b) (nx b) 0 (ny b)) in
  regions <- _create_connection_x regions "core" "SOL" ;;
  regions <- _create_connection_y regions "core" "core" ;;
  ret regions.

(** Lines 373-376. *)
Definition regions_core (b : breakpoints) : result (dict Region) :=
  let regions := [] in
  let regions := setitem regions "core"
    (Region_init "core" 0 (nx b) 0 (ny b)) in
  regions <- _create_connection_y regions "core" "core" ;;
  ret regions.

(** Lines 377-379. *)
Definition regions_sol (b : breakpoints) : result (dict Region) :=
  let regions := [] in
  let regions := setitem regions "sol"
    (Region_init "sol" 0 (nx b) 0 (ny b)) in
  ret regions.

(** Lines 380-412. *)
Definition regions_xpoint (b : breakpoints) : result (dict Region) :=
  let regions := [] in
  let regions := setitem regions "lower_inner_PFR"
    (Region_init "lower_inner_PFR" 0 (ixs1 b) 0 (jys11 b + 1)) in
  let regions := setitem regions "lower_inner_SOL"
    (Region_init "lower_inner_SOL" (ixs1 b) (nx b) 0 (jys11 b + 1)) in
  let regions := setitem regions "upper_inner_PFR"
    (Region_init "upper_inner_PFR" 0 (ixs1 b) (jys11 b + 1) (nyinner b)) in
  let regions := setitem regions "upper_inner_SOL"
    (Region_init "upper_inner_SOL" (ixs1 b) (nx b)
                 (jys11 b + 1) (nyinner b)) in
  let regions := setitem regions "upper_outer_PFR"
    (Region_init "upper_outer_PFR" 0 (ixs1 b) (nyinner b) (jys22 b + 1)) in
  let regions := setitem regions "upper_outer_SOL"
    (Region_init "upper_outer_SOL" (ixs1 b) (nx b)
                 (nyinner b) (jys22 b + 1)) in
  let regions := setitem regions "lower_outer_PFR"
    (Region_init "lower_outer_PFR" 0 (ixs1 b) (jys22 b + 1) (ny b)) in
  let regions := setitem regions "lower_outer_SOL"
    (Region_init "lower_outer_SOL" (ixs1 b) (nx b) (jys22 b + 1) (ny b)) in
  regions <- _create_connection_x regions
               "lower_inner_PFR" "lower_inner_SOL" ;;
  regions <- _create_connection_x regions
               "upper_inner_PFR" "upper_inner_SOL" ;;
  regions <- _create_connection_x regions
               "upper_outer_PFR" "upper_outer_SOL" ;;
  regions <- _create_connection_x regions
               "lower_outer_PFR" "lower_outer_SOL" ;;
  regions <- _create_connection_y regions
               "lower_inner_PFR" "lower_outer_PFR" ;;
  regions <- _create_connection_y regions
               "lower_inner_SOL" "upper_inner_SOL" ;;
  regions <- _create_connection_y regions
               "upper_outer_PFR" "upper_inner_PFR" ;;
  regions <- _create_connection_y regions
               "upper_outer_SOL" "lower_outer_SOL" ;;
  ret regions.

(** Lines 212-414: the dispatch on the topology tag. *)
Definition regions_of_topology (topology : string) (b : breakpoints)
  : result (dict Region) :=
  if String.eqb topology "disconnected-double-null" then
    regions_disconnected_double_null b
  else if String.eqb topology "connected-double-null" then
    regions_connected_double_null b
  else if String.eqb topology "single-null" then regions_single_null b
  else if String.eqb topology "limiter" then regions_limiter b
  else if String.eqb topology "core" then regions_core b
  else if String.eqb topology "sol" then regions_sol b
  else if String.eqb topology "xpoint" then regions_xpoint b
  else inl (NotImplementedError
              ("Topology '" ++ topology ++ "' is not implemented")).

Definition _create_regions_toroidal (ds : metadata.t) : result (dict Region) :=
  let topology := _get_topology ds in
  regions_of_topology topology (adjust_breakpoints ds).

(** ** The preprocessing as the specification words it

    "Clamp v into [lo, hi]" is the nearest point of the interval, written
    with [Z.max] and [Z.min]; "order so a <= b" is the pair (min, max); the
    boundary offset is [MYG] when the y-boundaries are kept and [0]
    otherwise. *)

Definition clamp (v lo hi : Z) : Z := Z.max lo (Z.min v hi).

Definition ordered_pair (a b : Z) : Z * Z := (Z.min a b, Z.max a b).

Definition reference_preprocessing (ds : metadata.t) : breakpoints :=
  let '(x1, x2) :=
    ordered_pair (clamp (metadata.ixseps1 ds) 0 (metadata.nx ds))
                 (clamp (metadata.ixseps2 ds) 0 (metadata.nx ds)) in
  let j11 := clamp (metadata.jyseps1_1 ds) 0 (metadata.ny ds - 1) in
  let '(j21, j12) :=
    ordered_pair (clamp (metadata.jyseps2_1 ds) 0 (metadata.ny ds - 1))
                 (clamp (metadata.jyseps1_2 ds) 0 (metadata.ny ds - 1)) in
  let nyi := clamp (metadata.ny_inner ds) (j21 + 1) (j12 + 1) in
  let j22 := clamp (metadata.jyseps2_2 ds) 0 (metadata.ny ds - 1) in
  let xshift :=
    if metadata.keep_xboundaries ds then 0 else metadata.MXG ds in
  let ybndry :=
    if metadata.keep_yboundaries ds then metadata.MYG ds else 0 in
  mkbreakpoints (x1 - xshift) (x2 - xshift) (metadata.nx ds - 2 * xshift)
                (j11 + ybndry) (j21 + ybndry) (nyi + 2 * ybndry)
                (j12 + 3 * ybndry) (j22 + 3 * ybndry)
                (metadata.ny ds + 4 * ybndry).

(** ** Concrete datasets *)

(** A limiter grid: no divertor legs, separatrix strictly inside the grid. *)
Definition ds_limiter : metadata.t :=
  metadata.mk 8 8 4 4 4 (-1) 3 3 7 2 2 true true.

(** The same limiter grid read with other guard-cell settings. *)
Definition ds_limiter_noguards : metadata.t :=
  metadata.mk 8 8 4 4 4 (-1) 3 3 7 0 0 false false.

(** A lower single-null grid: one x-point, second separatrix at the edge. *)
Definition ds_single_null : metadata.t :=
  metadata.mk 8 16 8 4 8 3 7 7 11 2 2 true false.

(** A connected double-null grid whose first two y-breakpoints are out of
    order ([jyseps1_1 > jyseps2_1]). *)
Definition ds_unordered : metadata.t :=
  metadata.mk 8 16 8 4 4 5 3 11 13 0 0 true true.

(** The core-only scenario: [nx=4, ny=8], both separatrices beyond the grid. *)
Definition ds_core : metadata.t :=
  metadata.mk 4 8 4 10 10 (-1) 3 3 7 0 0 true true.

(** The core-only grid stored without its x-guard cells but with its
    y-boundary cells. *)
Definition ds_core_guards : metadata.t :=
  metadata.mk 8 8 4 10 10 (-1) 3 3 7 2 2 false true.

(** An isolated x-point grid. *)
Definition ds_xpoint : metadata.t :=
  metadata.mk 8 16 8 4 4 3 3 11 11 2 2 true true.

(** A well laid out disconnected double-null grid. *)
Definition ds_double_null : metadata.t :=
  metadata.mk 12 24 12 5 9 3 7 15 19 2 2 true true.

(** A disconnected double-null grid whose last x-point breakpoint lies
    before the previous one ([jyseps2_2 < jyseps1_2]). *)
Definition ds_short_outer : metadata.t :=
  metadata.mk 12 16 8 3 5 3 7 11 9 0 0 true true.

(** ** The scalars the classifier compares *)

(** Two datasets agree on the scalars [_get_topology] compares (it also
    reads ['ny_inner'], which no comparison uses). *)
Definition same_topology_scalars (ds ds' : metadata.t) : Prop :=
  metadata.jyseps1_1 ds = metadata.jyseps1_1 ds' /\
  metadata.jyseps2_1 ds = metadata.jyseps2_1 ds' /\
  metadata.jyseps1_2 ds = metadata.jyseps1_2 ds' /\
  metadata.jyseps2_2 ds = metadata.jyseps2_2 ds' /\
  metadata.ny ds = metadata.ny ds' /\
  metadata.ixseps1 ds = metadata.ixseps1 ds' /\
  metadata.ixseps2 ds = metadata.ixseps2 ds' /\
  metadata.nx ds = metadata.nx ds'.

(** ** Rectangles, coverage and links of a region set *)

(** [(x, y)] lies in the region's rectangle
    [xinner_ind, xouter_ind) x [ylower_ind, yupper_ind). *)
Definition in_region (r : Region) (x y : Z) : bool :=
  (xinner_ind r <=? x) && (x <? xouter_ind r) &&
  (ylower_ind r <=? y) && (y <? yupper_ind r).

(** [(x, y)] lies in the adjusted domain [0, nx) x [0, ny). *)
Definition in_domain (b : breakpoints) (x y : Z) : bool :=
  (0 <=? x) && (x <? nx b) && (0 <=? y) && (y <? ny b).

(** How many regions of the set contain [(x, y)]. *)
Definition cover_count (rs : dict Region) (x y : Z) : nat :=
  length (filter (fun kr => in_region (snd kr) x y) rs).

Definition pairwise_disjoint (rs : dict Region) : Prop :=
  forall ka A kb B x y,
    In (ka, A) rs -> In (kb, B) rs -> ka <> kb ->
    in_region A x y = true -> in_region B x y = true -> False.

Definition covers_exactly (rs : dict Region) (b : breakpoints) : Prop :=
  forall x y,
    in_domain b x y = true <->
    exists k r, In (k, r) rs /\ in_region r x y = true.

(** The regions' rectangles partition the adjusted domain: no overlaps, no
    gaps, nothing outside. *)
Definition partitions (rs : dict Region) (b : breakpoints) : Prop :=
  pairwise_disjoint rs /\ covers_exactly rs b.

(** The breakpoints are laid out as the tables assume. *)
Definition well_ordered (b : breakpoints) : Prop :=
  0 <= ixs1 b <= ixs2 b /\ ixs2 b <= nx b /\
  0 <= jys11 b + 1 <= jys21 b + 1 /\
  jys21 b + 1 <= nyinner b <= jys12 b + 1 /\
  jys12 b + 1 <= jys22 b + 1 <= ny b.

(** Every link [f A = Some b] of a region stored under [a] leads to a region
    [B] stored under [b], and [P a A b B] holds of the two. *)
Definition each_link (f : Region -> option string)
    (P : string -> Region -> string -> Region -> Prop)
    (rs : dict Region) : Prop :=
  forall a A b,
    In (a, A) rs -> f A = Some b ->
    exists B, getitem rs b = inr B /\ P a A b B.

(** The links of one kind, as (key of the region, key it points to). *)
Definition links (f : Region -> option string) (rs : dict Region)
  : list (string * string) :=
  flat_map (fun kr => match f (snd kr) with
                      | Some b => [(fst kr, b)]
                      | None => []
                      end) rs.

(** The entries whose [name] attribute differs from their key. *)
Definition misnamed (rs : dict Region) : list (string * string) :=
  flat_map (fun kr => if String.eqb (fst kr) (name (snd kr)) then []
                      else [(fst kr, name (snd kr))]) rs.

Definition unique_keys {V : Type} (d : dict V) : Prop := NoDup (keys d).

(** ** The rectangles without the names *)

Definition rect : Type := (Z * Z * Z * Z)%type.

Definition rect_of (r : Region) : rect :=
  (xinner_ind r, xouter_ind r, ylower_ind r, yupper_ind r).

Definition in_rect (q : rect) (x y : Z) : bool :=
  let '(xi, xo, yl, yu) := q in
  (xi <=? x) && (x <? xo) && (yl <=? y) && (y <? yu).

Definition rects (rs : dict Region) : list rect :=
  map (fun kr => rect_of (snd kr)) rs.

Fixpoint count_rects (qs : list rect) (x y : Z) : nat :=
  match qs with
  | [] => 0%nat
  | q :: qs' => ((if in_rect q x y then 1 else 0) + count_rects qs' x y)%nat
  end.

(** ** Properties of the connection graph *)

(** The adjacency invariant as the specification states it: across every
    link the seam coordinates of the two regions agree. *)
Definition seams_match (rs : dict Region) : Prop :=
  each_link connection_outer
            (fun _ A _ B => xouter_ind A = xinner_ind B) rs /\
  each_link connection_upper
            (fun _ A _ B => yupper_ind A = ylower_ind B) rs.

(** What the tables wire: an x-link joins two regions that meet at a shared x
    coordinate over one y-range; a y-link joins two regions with one x-range,
    wherever they lie in y. *)
Definition seams_by_design (rs : dict Region) : Prop :=
  each_link connection_outer
            (fun _ A _ B => xouter_ind A = xinner_ind B /\
                            ylower_ind A = ylower_ind B /\
                            yupper_ind A = yupper_ind B) rs /\
  each_link connection_upper
            (fun _ A _ B => xinner_ind A = xinner_ind B /\
                            xouter_ind A = xouter_ind B) rs.

(** Links are mutual when followed by dictionary key. *)
Definition symmetric_by_key (rs : dict Region) : Prop :=
  each_link connection_outer
            (fun a _ _ B => connection_inner B = Some a) rs /\
  each_link connection_inner
            (fun a _ _ B => connection_outer B = Some a) rs /\
  each_link connection_upper
            (fun a _ _ B => connection_lower B = Some a) rs /\
  each_link connection_lower
            (fun a _ _ B => connection_upper B = Some a) rs.

(** Links are mutual when compared with the regions' [name] attributes. *)
Definition symmetric_by_name (rs : dict Region) : Prop :=
  forall ka A kb B,
    In (ka, A) rs -> In (kb, B) rs ->
    (connection_outer A = Some (name B) <->
     connection_inner B = Some (name A)) /\
    (connection_upper A = Some (name B) <->
     connection_lower B = Some (name A)).

(** Every connection names some region of the set. *)
Definition no_dangling_name (rs : dict Region) : Prop :=
  forall k A c,
    In (k, A) rs ->
    In (Some c) [connection_inner A; connection_outer A;
                 connection_lower A; connection_upper A] ->
    exists kb B, In (kb, B) rs /\ name B = c.

(** ** The effect of the wiring helpers, entry by entry *)

(** Apply [f] to the value stored under [k], leaving every other entry. *)
Definition update_at {V : Type} (k : string) (f : V -> V) (kv : string * V)
  : string * V :=
  (fst kv, if String.eqb (fst kv) k then f (snd kv) else snd kv).

(** The effect of [_create_connection_x regions inner outer] on one entry. *)
Definition wire_x (inner outer : string) (kr : string * Region)
  : string * Region :=
  let r := snd kr in
  let r := if String.eqb (fst kr) inner
           then set_connection_outer r (Some outer) else r in
  let r := if String.eqb (fst kr) outer
           then set_connection_inner r (Some inner) else r in
  (fst kr, r).

Definition wire_y (lower upper : string) (kr : string * Region)
  : string * Region :=
  let r := snd kr in
  let r := if String.eqb (fst kr) lower
           then set_connection_upper r (Some upper) else r in
  let r := if String.eqb (fst kr) upper
           then set_connection_lower r (Some lower) else r in
  (fst kr, r).

(** The attributes a connection never touches. *)
Definition same_name_and_rectangle (r r' : Region) : Prop :=
  name r' = name r /\ rect_of r' = rect_of r.

(** Three unconnected regions side by side in x. *)
Definition regions_example : dict Region :=
  [("core", Region_init "core" 0 4 0 8); ("SOL", Region_init "SOL" 4 8 0 8);
   ("edge", Region_init "edge" 8 9 0 8)].

(** ** Shape of the region sets *)

(** The keys of the region set of each topology, in insertion order. *)
Definition region_keys (topology : string) : list string :=
  if String.eqb topology "disconnected-double-null" then
    ["lower_inner_PFR"; "lower_inner_intersep"; "lower_inner_SOL";
     "inner_core"; "inner_intersep"; "inner_SOL";
     "upper_inner_PFR"; "upper_inner_intersep"; "upper_inner_SOL";
     "upper_outer_PFR"; "upper_outer_intersep"; "upper_outer_SOL";
     "outer_core"; "outer_intersep"; "outer_SOL";
     "lower_outer_PFR"; "lower_outer_intersep"; "lower_outer_SOL"]
  else if String.eqb topology "connected-double-null" then
    ["lower_inner_PFR"; "lower_inner_SOL"; "inner_core"; "inner_SOL";
     "upper_inner_PFR"; "upper_inner_SOL";
     "upper_outer_PFR"; "upper_outer_SOL"; "outer_core"; "outer_SOL";
     "lower_outer_PFR"; "lower_outer_SOL"]
  else if String.eqb topology "single-null" then
    ["inner_PFR"; "inner_SOL"; "core"; "SOL"; "outer_PFR"; "outer_SOL"]
  else if String.eqb topology "limiter" then ["core"; "SOL"]
  else if String.eqb topology "core" then ["core"]
  else if String.eqb topology "sol" then ["sol"]
  else if String.eqb topology "xpoint" then
    ["lower_inner_PFR"; "lower_inner_SOL";
     "upper_inner_PFR"; "upper_inner_SOL";
     "upper_outer_PFR"; "upper_outer_SOL";
     "lower_outer_PFR"; "lower_outer_SOL"]
  else [].

(** A side of a region without a connection lies on an edge of the domain
    or, in y, on the cut at [nyinner] between the two upper legs. *)
Definition open_sides_on_edges (b : breakpoints) (rs : dict Region) : Prop :=
  forall k r,
    In (k, r) rs ->
    (connection_inner r = None -> xinner_ind r = 0) /\
    (connection_outer r = None -> xouter_ind r = nx b) /\
    (connection_lower r = None ->
     ylower_ind r = 0 \/ ylower_ind r = nyinner b) /\
    (connection_upper r = None ->
     yupper_ind r = ny b \/ yupper_ind r = nyinner b).

(** Every cell selected by the pair of slices lies in the region. *)
Definition band_inside (s : slice * slice) (B : Region) : Prop :=
  forall x y,
    in_slice (fst s) x = true -> in_slice (snd s) y = true ->
    in_region B x y = true.

(** The cells between the two separatrices in the core band of y. *)
Definition in_single_null_gap (b : breakpoints) (x y : Z) : bool :=
  (ixs1 b <=? x) && (x <? ixs2 b) &&
  (jys11 b + 1 <=? y) && (y <? jys22 b + 1).

(** The number of regions of each topology. *)
Definition region_count (topology : string) : nat :=
  if String.eqb topology "disconnected-double-null" then 18
  else if String.eqb topology "connected-double-null" then 12
  else if String.eqb topology "single-null" then 6
  else if String.eqb topology "limiter" then 2
  else if String.eqb topology "core" then 1
  else if String.eqb topology "sol" then 1
  else if String.eqb topology "xpoint" then 8
  else 0.

(** ** _strip_metadata (boutdataset.py, lines 194-209)

    The dataset is the ordered mapping [ds.variables] from names to
    variables; of a variable only the dimension names and the flattened
    values matter here.  [ds.drop] is applied to names that are variables of
    the dataset, where it simply removes them. *)

Module boutdataset.

Inductive exception : Type :=
| ValueError (msg : string)
| KeyError (key : string).

Definition result (A : Type) : Type := (exception + A)%type.

(** A variable of an [xarray.Dataset]: its dimension names and its values,
    flattened.  [V] is the type of one array element. *)
Record variable (V : Type) : Type := mkvariable {
  dims : list string;
  values : list V
}.

Arguments mkvariable {V} _ _.
Arguments dims {V} _.
Arguments values {V} _.

(** [ds.variables]: the variables of the dataset by name. *)
Definition Dataset (V : Type) : Type := dict (variable V).

(** [ds[var]] on the dataset, and [metadata[key]] on the metadata. *)
Definition lookup {A : Type} (d : dict A) (key : string) : result A :=
  match getitem d key with
  | inr v => inr v
  | inl _ => inl (KeyError key)
  end.

(** [dim in ['t', 'x', 'y', 'z']]. *)
Definition is_txyz (dim : string) : bool :=
  existsb (String.eqb dim) ["t"; "x"; "y"; "z"].

(** [any(dim in ['t', 'x', 'y', 'z'] for dim in ds[var].dims)]. *)
Definition has_txyz {V : Type} (v : variable V) : bool :=
  existsb is_txyz (dims v).

(** [numpy.asscalar]: the single element of an array of size one. *)
Definition asscalar {V : Type} (a : list V) : result V :=
  match a with
  | [x] => inr x
  | _ => inl (ValueError
                "can only convert an array of size 1 to a Python scalar")
  end.

(** Line 203: the comprehension selecting the scalar variables. *)
Fixpoint scalar_vars_of {V : Type} (ds : Dataset V) (variables : list string)
  : result (list string) :=
  match variables with
  | [] => inr []
  | var :: rest =>
      match lookup ds var with
      | inl e => inl e
      | inr v =>
          match scalar_vars_of ds rest with
          | inl e => inl e
          | inr l => inr (if has_txyz v then l else var :: l)
          end
      end
  end.

(** Line 206: the comprehension reading the value of each of them. *)
Fixpoint metadata_vals_of {V : Type} (ds : Dataset V)
    (scalar_vars : list string) : result (list V) :=
  match scalar_vars with
  | [] => inr []
  | var :: rest =>
      match lookup ds var with
      | inl e => inl e
      | inr v =>
          match asscalar (values v) with
          | inl e => inl e
          | inr x =>
              match metadata_vals_of ds rest with
              | inl e => inl e
              | inr l => inr (x :: l)
              end
          end
      end
  end.

(** [dict(zip(ks, vs))]. *)
Definition dict_of_zip {A : Type} (ks : list string) (vs : list A) : dict A :=
  fold_left (fun d kv => setitem d (fst kv) (snd kv)) (combine ks vs) [].

(** [ds.drop(names)] for names that are variables of [ds]. *)
Definition drop {V : Type} (ds : Dataset V) (names : list string)
  : Dataset V :=
  filter (fun kv => negb (existsb (String.eqb (fst kv)) names)) ds.

(** Lines 194-209. *)
Definition _strip_metadata {V : Type} (ds : Dataset V)
  : result (Dataset V * dict V) :=
  let variables := keys ds in
  match scalar_vars_of ds variables with
  | inl e => inl e
  | inr scalar_vars =>
      match metadata_vals_of ds scalar_vars with
      | inl e => inl e
      | inr metadata_vals =>
          inr (drop ds scalar_vars, dict_of_zip scalar_vars metadata_vals)
      end
  end.

End boutdataset.


(** A dataset with one field, one coordinate and two scalars. *)
Definition dataset_example : boutdataset.Dataset Z :=
  [("n", boutdataset.mkvariable ["t"; "x"; "y"] [1; 2; 3; 4]);
   ("NXPE", boutdataset.mkvariable [] [2]);
   ("x", boutdataset.mkvariable ["x"] [0; 1]);
   ("MYG", boutdataset.mkvariable [] [3])].

(** A dataset with a variable over a dimension other than t, x, y, z. *)
Definition dataset_with_bounds : boutdataset.Dataset Z :=
  [("n", boutdataset.mkvariable ["t"; "x"; "y"] [1; 2; 3; 4]);
   ("bounds", boutdataset.mkvariable ["w"] [0; 1])].

(** * Properties *)

(** ** Slices of a region *)

Lemma getSlices_y (r : Region) (mxg myg : Z) :
  snd (getSlices r mxg myg) = snd (getSlices_spec r mxg myg).
Proof. reflexivity. Qed.

(** What the code computes in x: the outer connection shifts the start. *)
Lemma getSlices_x (r : Region) (mxg myg : Z) :
  fst (getSlices r mxg myg) =
  mkslice
    (xinner_ind r
     - (if is_not_None (connection_inner r) then mxg else 0)
     + (if is_not_None (connection_outer r) then mxg else 0))
    (xouter_ind r).
Proof.
  unfold getSlices; cbn.
  destruct (connection_inner r), (connection_outer r); cbn; f_equal; lia.
Qed.

Lemma getSlices_no_outer_connection (r : Region) (mxg myg : Z) :
  connection_outer r = None ->
  getSlices r mxg myg = getSlices_spec r mxg myg.
Proof.
  intros H. unfold getSlices, getSlices_spec. rewrite H. reflexivity.
Qed.

(** C1 (code defect).  The full-region slice should end at
    [xouter_ind + mxg] on a side with an outer connection.  For the [core]
    region of a limiter grid, which is connected outward to [SOL], the code
    returns the x-slice [2, 4) for [mxg = 2] where the stated behaviour is
    [0, 6): line 40 adds the guard width to [xi] instead of [xo]. *)
Theorem getSlices_core_of_limiter :
  exists regions core,
    _create_regions_toroidal ds_limiter = inr regions /\
    getitem regions "core" = inr core /\
    connection_inner core = None /\
    connection_outer core = Some "SOL" /\
    getSlices core 2 0 = (mkslice 2 4, mkslice 0 16) /\
    getSlices_spec core 2 0 = (mkslice 0 6, mkslice 0 16) /\
    getSlices core 2 0 <> getSlices_spec core 2 0.
Proof.
  eexists; eexists.
  split; [vm_compute; reflexivity|].
  split; [vm_compute; reflexivity|].
  repeat split; try reflexivity.
  vm_compute; discriminate.
Qed.

(** C9.  Each guard-band slice is the band of the requested width just
    outside the region's own bound on the named side, over the region's full
    extent in the other dimension, whatever the region's connections are. *)
Theorem guard_slices_are_bands (r : Region) (mxg myg : Z)
    (Hx : 0 <= mxg) (Hy : 0 <= myg) :
  getInnerGuardsSlices r mxg =
    (mkslice (xinner_ind r - mxg) (xinner_ind r),
     mkslice (ylower_ind r) (yupper_ind r)) /\
  getOuterGuardsSlices r mxg =
    (mkslice (xouter_ind r) (xouter_ind r + mxg),
     mkslice (ylower_ind r) (yupper_ind r)) /\
  getLowerGuardsSlices r myg =
    (mkslice (xinner_ind r) (xouter_ind r),
     mkslice (ylower_ind r - myg) (ylower_ind r)) /\
  getUpperGuardsSlices r myg =
    (mkslice (xinner_ind r) (xouter_ind r),
     mkslice (yupper_ind r) (yupper_ind r + myg)) /\
  slice_width (fst (getInnerGuardsSlices r mxg)) = mxg /\
  slice_width (fst (getOuterGuardsSlices r mxg)) = mxg /\
  slice_width (snd (getLowerGuardsSlices r myg)) = myg /\
  slice_width (snd (getUpperGuardsSlices r myg)) = myg /\
  (forall i, in_slice (fst (getInnerGuardsSlices r mxg)) i = true <->
             xinner_ind r - mxg <= i < xinner_ind r) /\
  (forall i, in_slice (fst (getOuterGuardsSlices r mxg)) i = true <->
             xouter_ind r <= i < xouter_ind r + mxg) /\
  (forall j, in_slice (snd (getLowerGuardsSlices r myg)) j = true <->
             ylower_ind r - myg <= j < ylower_ind r) /\
  (forall j, in_slice (snd (getUpperGuardsSlices r myg)) j = true <->
             yupper_ind r <= j < yupper_ind r + myg) /\
  (forall ci co cl cu,
     let r' := mkRegion (name r) (xinner_ind r) (xouter_ind r)
                        (ylower_ind r) (yupper_ind r) ci co cl cu in
     getInnerGuardsSlices r' mxg = getInnerGuardsSlices r mxg /\
     getOuterGuardsSlices r' mxg = getOuterGuardsSlices r mxg /\
     getLowerGuardsSlices r' myg = getLowerGuardsSlices r myg /\
     getUpperGuardsSlices r' myg = getUpperGuardsSlices r myg).
Proof.
  unfold getInnerGuardsSlices, getOuterGuardsSlices, getLowerGuardsSlices,
    getUpperGuardsSlices, slice_width, in_slice; cbn.
  repeat split; try reflexivity; try lia;
    try (intros H; apply andb_true_iff in H; destruct H; lia);
    try (intros H; apply andb_true_iff; split; lia).
Qed.

Lemma guard_slices_are_bands_witness :
  getInnerGuardsSlices (Region_init "core" 4 8 0 16) 2 =
    (mkslice 2 4, mkslice 0 16) /\
  getUpperGuardsSlices (Region_init "core" 4 8 0 16) 3 =
    (mkslice 4 8, mkslice 16 19).
Proof.
  pose proof (guard_slices_are_bands (Region_init "core" 4 8 0 16) 2 3
                ltac:(lia) ltac:(lia)) as H.
  destruct H as (Hi & _ & _ & Hu & _).
  split; [exact Hi | exact Hu].
Defined.

(** ** The classifier *)

Lemma get_topology_cases (ds : metadata.t) :
  In (_get_topology ds)
     ["disconnected-double-null"; "connected-double-null"; "single-null";
      "limiter"; "core"; "sol"; "xpoint"].
Proof.
  unfold _get_topology.
  repeat match goal with
         | |- context [if ?c then _ else _] => destruct c
         end; cbn; tauto.
Qed.

(** C5.  The tag depends on the compared scalars only, and on a grid with no
    poloidal legs ([jyseps2_1 = jyseps1_2], [jyseps1_1 <= 0],
    [jyseps2_2 >= ny - 1]) and [nx >= 2] it is decided by
    [ix = min ixseps1 ixseps2]: ['core'] when [ix >= nx - 1], otherwise
    ['sol'] when [ix <= 0], otherwise ['limiter'], the latter exactly for
    [ix] in [1 .. nx - 2]. *)
Theorem get_topology_no_legs (ds ds' : metadata.t)
    (Hsame : same_topology_scalars ds ds')
    (Hj : metadata.jyseps2_1 ds = metadata.jyseps1_2 ds)
    (H11 : metadata.jyseps1_1 ds <= 0)
    (H22 : metadata.jyseps2_2 ds >= metadata.ny ds - 1)
    (Hnx : metadata.nx ds >= 2) :
  let ix := Z.min (metadata.ixseps1 ds) (metadata.ixseps2 ds) in
  _get_topology ds' = _get_topology ds /\
  (ix >= metadata.nx ds - 1 -> _get_topology ds = "core") /\
  (ix < metadata.nx ds - 1 -> ix <= 0 -> _get_topology ds = "sol") /\
  (ix < metadata.nx ds - 1 -> 0 < ix -> _get_topology ds = "limiter") /\
  (_get_topology ds = "limiter" <-> 1 <= ix <= metadata.nx ds - 2).
Proof.
  destruct Hsame as (E1 & E2 & E3 & E4 & E5 & E6 & E7 & E8).
  cbv zeta. unfold _get_topology.
  rewrite <- E1, <- E2, <- E3, <- E4, <- E5, <- E6, <- E7, <- E8.
  split; [reflexivity|].
  rewrite Hj, Z.eqb_refl.
  replace (metadata.jyseps1_1 ds <=? 0) with true
    by (symmetry; apply Z.leb_le; lia).
  replace (metadata.jyseps2_2 ds >=? metadata.ny ds - 1) with true
    by (symmetry; apply Z.geb_le; lia).
  cbn [andb].
  set (ix := Z.min (metadata.ixseps1 ds) (metadata.ixseps2 ds)).
  destruct (ix >=? metadata.nx ds - 1) eqn:Hc;
    [apply Z.geb_le in Hc | rewrite Z.geb_leb in Hc; apply Z.leb_gt in Hc];
    (destruct (ix <=? 0) eqn:Hs;
     [apply Z.leb_le in Hs | apply Z.leb_gt in Hs]);
    repeat split; intros; try reflexivity; try lia; try discriminate.
Qed.

Lemma get_topology_no_legs_witness :
  _get_topology ds_limiter_noguards = _get_topology ds_limiter /\
  _get_topology ds_limiter = "limiter".
Proof.
  pose proof (get_topology_no_legs ds_limiter ds_limiter_noguards) as H.
  cbv zeta in H.
  destruct H as (Hd & _ & _ & Hl & _).
  - repeat split.
  - reflexivity.
  - cbn; lia.
  - cbn; lia.
  - cbn; lia.
  - split; [exact Hd | apply Hl; cbn; lia].
Defined.

(** ** Preprocessing *)

Lemma in_range_clamp (v lo hi : Z) :
  lo <= hi -> _in_range v lo hi = clamp v lo hi.
Proof.
  intros H. unfold _in_range, clamp.
  destruct (Z.ltb_spec v lo); [lia|].
  rewrite Z.gtb_ltb.
  destruct (Z.ltb_spec hi v); lia.
Qed.

Lemma order_vars_ordered_pair (a b : Z) :
  _order_vars a b = ordered_pair a b.
Proof.
  unfold _order_vars, ordered_pair.
  destruct (Z.ltb_spec b a); f_equal; lia.
Qed.

Lemma clamp_bounds (v lo hi : Z) :
  lo <= hi -> lo <= clamp v lo hi <= hi.
Proof. unfold clamp; lia. Qed.

Lemma clamp_mono (v w lo hi : Z) :
  v <= w -> clamp v lo hi <= clamp w lo hi.
Proof. unfold clamp; lia. Qed.

Lemma clamp_id (v lo hi : Z) : lo <= v <= hi -> clamp v lo hi = v.
Proof. unfold clamp; lia. Qed.

(** C6.  On a grid with non-negative sizes ([0 <= nx], [1 <= ny], so that
    the clamping intervals [0, nx] and [0, ny-1] exist) the locals computed
    by lines 187-209 are those of the reference pipeline: clamp and order the
    separatrices, clamp the y-breakpoints and order [jyseps2_1 <= jyseps1_2],
    clamp [ny_inner] between them, clamp [jyseps2_2], then shift by the guard
    widths with the multipliers 1, 1, 2, 3, 3 and 4 in y. *)
Theorem adjust_breakpoints_is_reference (ds : metadata.t)
    (Hnx : 0 <= metadata.nx ds) (Hny : 1 <= metadata.ny ds) :
  adjust_breakpoints ds = reference_preprocessing ds.
Proof.
  unfold adjust_breakpoints, reference_preprocessing.
  rewrite !in_range_clamp by lia.
  rewrite !order_vars_ordered_pair.
  unfold ordered_pair.
  rewrite in_range_clamp by lia.
  destruct (metadata.keep_xboundaries ds), (metadata.keep_yboundaries ds);
    cbn [negb Z.b2z]; f_equal; lia.
Qed.

Lemma adjust_breakpoints_is_reference_witness :
  adjust_breakpoints ds_core_guards = reference_preprocessing ds_core_guards /\
  adjust_breakpoints ds_core_guards = mkbreakpoints 6 6 4 2 5 8 9 13 16.
Proof.
  split; [|reflexivity].
  apply (adjust_breakpoints_is_reference ds_core_guards); cbn; lia.
Defined.

(** ** Region sets: lookups, links and counting *)

Lemma each_link_check (f : Region -> option string)
    (P : string -> Region -> string -> Region -> Prop) (rs : dict Region) :
  Forall (fun kr => match f (snd kr) with
                    | None => True
                    | Some b => match getitem rs b with
                                | inr B => P (fst kr) (snd kr) b B
                                | inl _ => False
                                end
                    end) rs ->
  each_link f P rs.
Proof.
  intros H a A b Hin Hf.
  rewrite Forall_forall in H. specialize (H _ Hin). cbn in H.
  rewrite Hf in H.
  destruct (getitem rs b) as [e|B]; [contradiction|].
  exists B; split; [reflexivity | exact H].
Qed.

Lemma getitem_In {V : Type} (d : dict V) (k : string) (v : V) :
  getitem d k = inr v -> In (k, v) d.
Proof.
  induction d as [|[k' v'] d IH]; cbn; [discriminate|].
  destruct (String.eqb_spec k k') as [->|Hne].
  - intros [= ->]; now left.
  - intros H; right; auto.
Qed.

Lemma In_getitem {V : Type} (d : dict V) (k : string) (v : V) :
  unique_keys d -> In (k, v) d -> getitem d k = inr v.
Proof.
  unfold unique_keys, keys.
  induction d as [|[k' v'] d IH]; cbn; [contradiction|].
  intros Hnd [[= -> ->]|Hin].
  - now rewrite String.eqb_refl.
  - inversion Hnd as [|? ? Hnotin Hnd']; subst.
    destruct (String.eqb_spec k k') as [->|Hne].
    + exfalso; apply Hnotin. apply (in_map fst) in Hin. exact Hin.
    + auto.
Qed.

(** Counting is enough: a set whose cover count is 1 inside the domain and 0
    outside is a partition. *)
Lemma partitions_of_count (rs : dict Region) (b : breakpoints) :
  (forall x y,
     cover_count rs x y = if in_domain b x y then 1%nat else 0%nat) ->
  partitions rs b.
Proof.
  intros Hc; split.
  - intros ka A kb B x y HA HB Hne HinA HinB.
    specialize (Hc x y). unfold cover_count in Hc.
    assert (HA' : In (ka, A) (filter (fun kr => in_region (snd kr) x y) rs))
      by (apply filter_In; auto).
    assert (HB' : In (kb, B) (filter (fun kr => in_region (snd kr) x y) rs))
      by (apply filter_In; auto).
    destruct (filter (fun kr => in_region (snd kr) x y) rs) as [|e [|e' l]].
    + contradiction.
    + destruct HA' as [HA'|[]], HB' as [HB'|[]]. congruence.
    + destruct (in_domain b x y); discriminate.
  - intros x y; specialize (Hc x y); unfold cover_count in Hc; split.
    + intros Hd; rewrite Hd in Hc.
      destruct (filter (fun kr => in_region (snd kr) x y) rs)
        as [|[k r] l] eqn:E; [discriminate|].
      assert (Hin : In (k, r) (filter (fun kr => in_region (snd kr) x y) rs))
        by (rewrite E; now left).
      apply filter_In in Hin. exists k, r. exact Hin.
    + intros (k & r & Hin & Hr).
      assert (Hin' : In (k, r) (filter (fun kr => in_region (snd kr) x y) rs))
        by (apply filter_In; auto).
      destruct (in_domain b x y); [reflexivity|].
      destruct (filter (fun kr => in_region (snd kr) x y) rs);
        [contradiction | discriminate].
Qed.

(** ** Running the tables on symbolic breakpoints *)

(** Evaluate the dictionary operations and string comparisons of a table and
    leave the integer arithmetic and the breakpoints alone. *)
Ltac run_table :=
  cbv -[Z.add Z.sub Z.mul Z.leb Z.ltb Z.le Z.lt
        ixs1 ixs2 nx jys11 jys21 nyinner jys12 jys22 ny].

(** Decide every integer comparison of the goal from the hypotheses. *)
Ltac resolve_cmp :=
  repeat match goal with
  | |- context [?a <=? ?b] =>
      first [ rewrite (proj2 (Z.leb_le a b)) by lia
            | rewrite (proj2 (Z.leb_gt a b)) by lia ]
  | |- context [?a <? ?b] =>
      first [ rewrite (proj2 (Z.ltb_lt a b)) by lia
            | rewrite (proj2 (Z.ltb_ge a b)) by lia ]
  end.

Lemma table_disconnected_double_null (b : breakpoints) :
  regions_of_topology "disconnected-double-null" b
  = regions_disconnected_double_null b.
Proof. reflexivity. Qed.

Lemma table_connected_double_null (b : breakpoints) :
  regions_of_topology "connected-double-null" b
  = regions_connected_double_null b.
Proof. reflexivity. Qed.

Lemma table_single_null (b : breakpoints) :
  regions_of_topology "single-null" b = regions_single_null b.
Proof. reflexivity. Qed.

Lemma table_limiter (b : breakpoints) :
  regions_of_topology "limiter" b = regions_limiter b.
Proof. reflexivity. Qed.

Lemma table_core (b : breakpoints) :
  regions_of_topology "core" b = regions_core b.
Proof. reflexivity. Qed.

Lemma table_sol (b : breakpoints) :
  regions_of_topology "sol" b = regions_sol b.
Proof. reflexivity. Qed.

Lemma table_xpoint (b : breakpoints) :
  regions_of_topology "xpoint" b = regions_xpoint b.
Proof. reflexivity. Qed.

Create Rewrite HintDb tables.

#[local] Hint Rewrite table_disconnected_double_null
  table_connected_double_null table_single_null table_limiter table_core
  table_sol table_xpoint : tables.

(** Split a statement about [_create_regions_toroidal ds] into the seven
    topologies, in the order of the source's [if] chain; [E] records the
    tag. *)
Ltac by_topology ds E :=
  unfold _create_regions_toroidal;
  destruct (get_topology_cases ds) as [E|[E|[E|[E|[E|[E|[E|[]]]]]]]];
  rewrite <- E; autorewrite with tables.

Lemma cover_count_rects (rs : dict Region) (x y : Z) :
  cover_count rs x y = count_rects (rects rs) x y.
Proof.
  unfold cover_count, rects.
  induction rs as [|[k r] rs IH];
    cbn [filter map count_rects length snd]; [reflexivity|].
  change (in_rect (rect_of r) x y) with (in_region r x y).
  destruct (in_region r x y); cbn [length]; rewrite IH; reflexivity.
Qed.

Ltac open_count :=
  rewrite cover_count_rects;
  cbv [rects map snd rect_of xinner_ind xouter_ind ylower_ind yupper_ind
       count_rects in_rect in_domain].

(** ** Coverage of each table *)

Section Coverage.

Variable b : breakpoints.
Variables x y : Z.
Hypothesis Hord : well_ordered b.

Let x_bands :
  x < 0 \/ 0 <= x < ixs1 b \/ ixs1 b <= x < ixs2 b \/
  ixs2 b <= x < nx b \/ nx b <= x.
Proof. unfold well_ordered in Hord; lia. Qed.

Let y_bands :
  y < 0 \/ 0 <= y < jys11 b + 1 \/ jys11 b + 1 <= y < jys21 b + 1 \/
  jys21 b + 1 <= y < nyinner b \/ nyinner b <= y < jys12 b + 1 \/
  jys12 b + 1 <= y < jys22 b + 1 \/ jys22 b + 1 <= y < ny b \/ ny b <= y.
Proof. unfold well_ordered in Hord; lia. Qed.

Ltac count_in_bands Hx Hy :=
  let H := fresh "H" in
  pose proof Hord as H; unfold well_ordered in H;
  destruct Hx as [Hx|[Hx|[Hx|[Hx|Hx]]]],
           Hy as [Hy|[Hy|[Hy|[Hy|[Hy|[Hy|[Hy|Hy]]]]]]];
  first [exfalso; lia | resolve_cmp; reflexivity].

Lemma count_disconnected_double_null :
  exists rs, regions_disconnected_double_null b = inr rs /\
    cover_count rs x y = if in_domain b x y then 1%nat else 0%nat.
Proof.
  eexists; split; [run_table; reflexivity|].
  open_count.
  pose proof x_bands as Hx; pose proof y_bands as Hy.
  count_in_bands Hx Hy.
Qed.

Lemma count_connected_double_null :
  ixs1 b = ixs2 b ->
  exists rs, regions_connected_double_null b = inr rs /\
    cover_count rs x y = if in_domain b x y then 1%nat else 0%nat.
Proof.
  intros Heq.
  eexists; split; [run_table; reflexivity|].
  open_count.
  pose proof x_bands as Hx; pose proof y_bands as Hy.
  count_in_bands Hx Hy.
Qed.

Lemma count_single_null :
  ixs1 b = ixs2 b ->
  exists rs, regions_single_null b = inr rs /\
    cover_count rs x y = if in_domain b x y then 1%nat else 0%nat.
Proof.
  intros Heq.
  eexists; split; [run_table; reflexivity|].
  open_count.
  pose proof x_bands as Hx; pose proof y_bands as Hy.
  count_in_bands Hx Hy.
Qed.

Lemma count_limiter :
  exists rs, regions_limiter b = inr rs /\
    cover_count rs x y = if in_domain b x y then 1%nat else 0%nat.
Proof.
  eexists; split; [run_table; reflexivity|].
  open_count.
  pose proof x_bands as Hx; pose proof y_bands as Hy.
  count_in_bands Hx Hy.
Qed.

Lemma count_xpoint :
  exists rs, regions_xpoint b = inr rs /\
    cover_count rs x y = if in_domain b x y then 1%nat else 0%nat.
Proof.
  eexists; split; [run_table; reflexivity|].
  open_count.
  pose proof x_bands as Hx; pose proof y_bands as Hy.
  count_in_bands Hx Hy.
Qed.

End Coverage.

(** The one-region tables cover the domain whatever the breakpoints are. *)
Lemma count_core (b : breakpoints) (x y : Z) :
  exists rs, regions_core b = inr rs /\
    cover_count rs x y = if in_domain b x y then 1%nat else 0%nat.
Proof.
  eexists; split; [run_table; reflexivity|].
  open_count. destruct (_ && _); reflexivity.
Qed.

Lemma count_sol (b : breakpoints) (x y : Z) :
  exists rs, regions_sol b = inr rs /\
    cover_count rs x y = if in_domain b x y then 1%nat else 0%nat.
Proof.
  eexists; split; [run_table; reflexivity|].
  open_count. destruct (_ && _); reflexivity.
Qed.

(** ** The partition property *)

(** A connected double-null grid has equal separatrix indices, before and
    after the preprocessing. *)
Lemma connected_double_null_separatrices (ds : metadata.t) :
  _get_topology ds = "connected-double-null" ->
  ixs1 (adjust_breakpoints ds) = ixs2 (adjust_breakpoints ds).
Proof.
  unfold _get_topology.
  destruct (metadata.ixseps1 ds =? metadata.ixseps2 ds) eqn:Heq.
  - intros _. apply Z.eqb_eq in Heq.
    unfold adjust_breakpoints. rewrite Heq.
    unfold _order_vars. rewrite Z.ltb_irrefl.
    destruct (_ <? _), (negb (metadata.keep_xboundaries ds)); reflexivity.
  - repeat match goal with
           | |- context [if ?c then _ else _] => destruct c
           end; discriminate.
Qed.

(** Two regions stored under different keys that share a cell rule out a
    partition. *)
Lemma overlap_not_partition (rs : dict Region) (b : breakpoints)
    (ka kb : string) (A B : Region) (x y : Z) :
  getitem rs ka = inr A -> getitem rs kb = inr B -> ka <> kb ->
  in_region A x y = true -> in_region B x y = true ->
  ~ partitions rs b.
Proof.
  intros HA HB Hne HxA HxB [Hdisj _].
  exact (Hdisj ka A kb B x y (getitem_In _ _ _ HA) (getitem_In _ _ _ HB)
               Hne HxA HxB).
Qed.

(** C2 (as stated, refuted).  Nothing orders [jyseps1_1] against
    [jyseps2_1]: on [ds_unordered] the regions [lower_inner_PFR]
    ([0,4) x [0,6)) and [upper_inner_PFR] ([0,4) x [4,8)) both contain the
    cell (0, 4), so the rectangles do not partition the domain. *)
Lemma unordered_breakpoints_overlap :
  exists rs,
    _create_regions_toroidal ds_unordered = inr rs /\
    ~ partitions rs (adjust_breakpoints ds_unordered).
Proof.
  eexists; split; [vm_compute; reflexivity|].
  apply (overlap_not_partition _ _ "lower_inner_PFR" "upper_inner_PFR"
           (mkRegion "lower_inner_PFR" 0 4 0 6 None (Some "lower_inner_SOL")
                     None (Some "lower_outer_PFR"))
           (mkRegion "upper_inner_PFR" 0 4 4 8 None (Some "upper_inner_SOL")
                     (Some "upper_outer_PFR") None)
           0 4);
    first [reflexivity | discriminate].
Qed.

(** C2 (amended).  When the adjusted breakpoints are laid out in order,
    [0 <= ixs1 <= ixs2 <= nx] and
    [0 <= jys11+1 <= jys21+1 <= nyinner <= jys12+1 <= jys22+1 <= ny], and,
    on a single-null grid, the two adjusted separatrix indices coincide, the
    builder returns a region set whose rectangles partition
    [0, nx) x [0, ny): pairwise disjoint, covering every cell of the domain
    and no cell outside it. *)
Theorem regions_partition_domain (ds : metadata.t)
    (Hord : well_ordered (adjust_breakpoints ds))
    (Hsn : _get_topology ds = "single-null" ->
           ixs1 (adjust_breakpoints ds) = ixs2 (adjust_breakpoints ds)) :
  exists rs,
    _create_regions_toroidal ds = inr rs /\
    partitions rs (adjust_breakpoints ds).
Proof.
  pose proof (connected_double_null_separatrices ds) as Hcdn.
  revert Hord Hsn Hcdn.
  by_topology ds E.
  all: generalize (adjust_breakpoints ds); intros b Hord Hsn Hcdn.
  - destruct (count_disconnected_double_null b 0 0 Hord) as (rs & Hrs & _).
    exists rs; split; [exact Hrs|].
    apply partitions_of_count; intros x y.
    destruct (count_disconnected_double_null b x y Hord) as (rs' & Hrs' & Hc).
    congruence.
  - specialize (Hcdn eq_refl).
    destruct (count_connected_double_null b 0 0 Hord Hcdn) as (rs & Hrs & _).
    exists rs; split; [exact Hrs|].
    apply partitions_of_count; intros x y.
    destruct (count_connected_double_null b x y Hord Hcdn)
      as (rs' & Hrs' & Hc).
    congruence.
  - specialize (Hsn eq_refl).
    destruct (count_single_null b 0 0 Hord Hsn) as (rs & Hrs & _).
    exists rs; split; [exact Hrs|].
    apply partitions_of_count; intros x y.
    destruct (count_single_null b x y Hord Hsn) as (rs' & Hrs' & Hc).
    congruence.
  - destruct (count_limiter b 0 0 Hord) as (rs & Hrs & _).
    exists rs; split; [exact Hrs|].
    apply partitions_of_count; intros x y.
    destruct (count_limiter b x y Hord) as (rs' & Hrs' & Hc).
    congruence.
  - destruct (count_core b 0 0) as (rs & Hrs & _).
    exists rs; split; [exact Hrs|].
    apply partitions_of_count; intros x y.
    destruct (count_core b x y) as (rs' & Hrs' & Hc).
    congruence.
  - destruct (count_sol b 0 0) as (rs & Hrs & _).
    exists rs; split; [exact Hrs|].
    apply partitions_of_count; intros x y.
    destruct (count_sol b x y) as (rs' & Hrs' & Hc).
    congruence.
  - destruct (count_xpoint b 0 0 Hord) as (rs & Hrs & _).
    exists rs; split; [exact Hrs|].
    apply partitions_of_count; intros x y.
    destruct (count_xpoint b x y Hord) as (rs' & Hrs' & Hc).
    congruence.
Qed.

Lemma regions_partition_domain_witness :
  exists rs,
    _create_regions_toroidal ds_double_null = inr rs /\
    partitions rs (adjust_breakpoints ds_double_null).
Proof.
  apply (regions_partition_domain ds_double_null).
  - unfold well_ordered; cbn; lia.
  - cbn; discriminate.
Defined.

(** The locals of the builder in closed form (used by the lemmas below). *)
Lemma adjust_breakpoints_closed_form (ds : metadata.t) :
  0 <= metadata.nx ds -> 1 <= metadata.ny ds ->
  adjust_breakpoints ds = reference_preprocessing ds.
Proof.
  intros Hnx Hny.
  unfold adjust_breakpoints, reference_preprocessing.
  rewrite !in_range_clamp by lia.
  rewrite !order_vars_ordered_pair.
  unfold ordered_pair.
  rewrite in_range_clamp by lia.
  destruct (metadata.keep_xboundaries ds), (metadata.keep_yboundaries ds);
    cbn [negb Z.b2z]; f_equal; lia.
Qed.

(** X8.  Metadata with non-negative sizes and guard widths whose
    y-breakpoints are given in order ([jyseps1_1 <= jyseps2_1 <= jyseps1_2
    <= jyseps2_2]) and whose separatrix indices, when the x-boundaries are
    dropped, lie between [MXG] and [nx - MXG], gives adjusted breakpoints
    laid out in the order the tables assume. *)
Lemma well_ordered_of_metadata (ds : metadata.t) :
  0 <= metadata.nx ds -> 1 <= metadata.ny ds ->
  0 <= metadata.MXG ds -> 0 <= metadata.MYG ds ->
  metadata.jyseps1_1 ds <= metadata.jyseps2_1 ds ->
  metadata.jyseps2_1 ds <= metadata.jyseps1_2 ds ->
  metadata.jyseps1_2 ds <= metadata.jyseps2_2 ds ->
  (metadata.keep_xboundaries ds = false ->
   metadata.MXG ds <= Z.min (metadata.ixseps1 ds) (metadata.ixseps2 ds) /\
   Z.max (metadata.ixseps1 ds) (metadata.ixseps2 ds)
     <= metadata.nx ds - metadata.MXG ds) ->
  well_ordered (adjust_breakpoints ds).
Proof.
  intros Hnx Hny Hmxg Hmyg H1 H2 H3 Hx.
  rewrite adjust_breakpoints_closed_form by lia.
  unfold reference_preprocessing, ordered_pair, well_ordered.
  cbn [ixs1 ixs2 nx jys11 jys21 nyinner jys12 jys22 ny].
  pose proof (clamp_bounds (metadata.ixseps1 ds) 0 _ Hnx) as B1.
  pose proof (clamp_bounds (metadata.ixseps2 ds) 0 _ Hnx) as B2.
  assert (Hny' : 0 <= metadata.ny ds - 1) by lia.
  pose proof (clamp_bounds (metadata.jyseps1_1 ds) 0 _ Hny') as B11.
  pose proof (clamp_bounds (metadata.jyseps2_2 ds) 0 _ Hny') as B22.
  pose proof (clamp_mono _ _ 0 (metadata.ny ds - 1) H1) as M1.
  pose proof (clamp_mono _ _ 0 (metadata.ny ds - 1) H2) as M2.
  pose proof (clamp_mono _ _ 0 (metadata.ny ds - 1) H3) as M3.
  assert (X : metadata.keep_xboundaries ds = false ->
              clamp (metadata.ixseps1 ds) 0 (metadata.nx ds)
                = metadata.ixseps1 ds /\
              clamp (metadata.ixseps2 ds) 0 (metadata.nx ds)
                = metadata.ixseps2 ds).
  { intros K; specialize (Hx K); split; apply clamp_id; lia. }
  rewrite (Z.min_l _ _ M2), (Z.max_r _ _ M2).
  set (c21 := clamp (metadata.jyseps2_1 ds) 0 (metadata.ny ds - 1)) in *.
  set (c12 := clamp (metadata.jyseps1_2 ds) 0 (metadata.ny ds - 1)) in *.
  assert (Bn : c21 + 1
               <= clamp (metadata.ny_inner ds) (c21 + 1) (c12 + 1)
               <= c12 + 1)
    by (apply clamp_bounds; lia).
  revert Bn M1 M2 M3 B11 B22 B1 B2 X Hx.
  generalize (clamp (metadata.ny_inner ds) (c21 + 1) (c12 + 1)).
  generalize (clamp (metadata.jyseps1_1 ds) 0 (metadata.ny ds - 1)).
  generalize (clamp (metadata.jyseps2_2 ds) 0 (metadata.ny ds - 1)).
  generalize (clamp (metadata.ixseps1 ds) 0 (metadata.nx ds)).
  generalize (clamp (metadata.ixseps2 ds) 0 (metadata.nx ds)).
  generalize c21 c12. clear c21 c12.
  intros c21 c12 x2 x1 c22 c11 nyi Bn M1 M2 M3 B11 B22 B1 B2 X Hx.
  destruct (metadata.keep_xboundaries ds), (metadata.keep_yboundaries ds);
    try (destruct (X eq_refl) as [-> ->]; specialize (Hx eq_refl));
    clear X; lia.
Qed.

Lemma well_ordered_of_metadata_witness :
  well_ordered (adjust_breakpoints ds_double_null).
Proof.
  apply (well_ordered_of_metadata ds_double_null); cbn; lia.
Defined.

(** The gap the single-null table leaves when the separatrix indices differ:
    on [ds_single_null] the ['SOL'] region is [8, 8) x [4, 12), so the cell
    (4, 4) of the domain belongs to no region. *)
Lemma single_null_sol_gap :
  exists rs sol,
    _create_regions_toroidal ds_single_null = inr rs /\
    getitem rs "SOL" = inr sol /\
    xinner_ind sol = ixs2 (adjust_breakpoints ds_single_null) /\
    in_domain (adjust_breakpoints ds_single_null) 4 4 = true /\
    cover_count rs 4 4 = 0%nat.
Proof.
  eexists; eexists.
  split; [vm_compute; reflexivity|].
  split; [vm_compute; reflexivity|].
  repeat split.
Qed.

(** ** Connections *)

(** Check a property of every link of an explicit table, entry by entry. *)
Ltac check_links :=
  apply each_link_check;
  repeat (apply Forall_cons;
          [run_table; repeat split; try reflexivity; try lia |]);
  apply Forall_nil.

Lemma symmetric_by_key_tables (ds : metadata.t) :
  exists rs,
    _create_regions_toroidal ds = inr rs /\
    unique_keys rs /\ symmetric_by_key rs.
Proof.
  by_topology ds E.
  all: generalize (adjust_breakpoints ds); intros b.
  all: eexists; split; [run_table; reflexivity|].
  all: split;
    [ unfold unique_keys; cbn [keys map fst];
      repeat (apply NoDup_cons;
              [cbn [In]; intuition discriminate|]);
      apply NoDup_nil
    | unfold symmetric_by_key; repeat apply conj; check_links ].
Qed.

(** C3 (as stated, refuted).  In the core-only scenario the single region
    [core] is its own upper neighbour, with [yupper_ind = 8] and
    [ylower_ind = 0]: a y-connection does not imply equal seam
    coordinates. *)
Lemma core_wrap_seam_mismatch :
  exists rs,
    _create_regions_toroidal ds_core = inr rs /\ ~ seams_match rs.
Proof.
  eexists; split; [vm_compute; reflexivity|].
  intros [_ Hy].
  destruct (Hy "core" _ "core" (or_introl eq_refl) eq_refl) as (B & HB & HS).
  cbn in HB. injection HB as <-. cbn in HS. discriminate.
Qed.

(** C3 (amended).  On every grid (a single-null grid being taken with
    coinciding adjusted separatrix indices) each x-connection
    [A.connection_outer = B] joins regions with
    [A.xouter_ind = B.xinner_ind] and identical y-ranges, and each
    y-connection [A.connection_upper = B] joins regions with identical
    x-ranges; the y-seam coordinates [A.yupper_ind] and [B.ylower_ind] are
    not tied to each other. *)
Theorem connected_regions_compatible (ds : metadata.t)
    (Hsn : _get_topology ds = "single-null" ->
           ixs1 (adjust_breakpoints ds) = ixs2 (adjust_breakpoints ds)) :
  exists rs,
    _create_regions_toroidal ds = inr rs /\ seams_by_design rs.
Proof.
  pose proof (connected_double_null_separatrices ds) as Hcdn.
  revert Hsn Hcdn.
  by_topology ds E.
  all: generalize (adjust_breakpoints ds); intros b Hsn Hcdn.
  all: try specialize (Hsn eq_refl); try specialize (Hcdn eq_refl).
  all: eexists; split; [run_table; reflexivity|].
  all: unfold seams_by_design; split; check_links.
Qed.

Lemma connected_regions_compatible_witness :
  exists rs,
    _create_regions_toroidal ds_double_null = inr rs /\ seams_by_design rs.
Proof.
  apply (connected_regions_compatible ds_double_null).
  cbn; discriminate.
Defined.

(** C4 (code defect).  On a single-null grid the connections are not mutual
    by name: the region named [lower_PFR] (stored under ["outer_PFR"]) has
    [connection_lower = inner_PFR], while [inner_PFR] has
    [connection_upper = outer_PFR], a name no region carries. *)
Theorem single_null_names_break_symmetry :
  exists rs,
    _create_regions_toroidal ds_single_null = inr rs /\
    symmetric_by_key rs /\
    ~ symmetric_by_name rs /\
    ~ no_dangling_name rs.
Proof.
  destruct (symmetric_by_key_tables ds_single_null) as (rs & Hrs & _ & Hkey).
  exists rs; split; [exact Hrs|]. split; [exact Hkey|].
  vm_compute in Hrs. injection Hrs as <-. clear Hkey.
  split.
  - intros H.
    destruct (H "inner_PFR" _ "outer_PFR" _
                (or_introl eq_refl)
                (or_intror (or_intror (or_intror (or_intror
                   (or_introl eq_refl))))))
      as [_ [_ H2]].
    specialize (H2 eq_refl). discriminate.
  - intros H.
    destruct (H "inner_PFR" _ "outer_PFR" (or_introl eq_refl))
      as (kb & B & Hin & Hname).
    + cbn. tauto.
    + cbn in Hin.
      repeat (destruct Hin as [Hin|Hin];
              [injection Hin as <- <-; discriminate|]).
      contradiction.
Qed.

(** ** The isolated x-point table *)

(** C7 (as stated, refuted).  An isolated x-point grid gets eight regions,
    not six. *)
Lemma xpoint_has_eight_regions :
  _get_topology ds_xpoint = "xpoint" /\
  exists rs,
    _create_regions_toroidal ds_xpoint = inr rs /\
    length rs = 8%nat /\ length rs <> 6%nat.
Proof.
  split; [reflexivity|].
  eexists; split; [vm_compute; reflexivity|].
  split; [reflexivity | discriminate].
Qed.

(** C7 (amended).  On a grid classified as ['xpoint'] ([jyseps2_1] differs
    from [jyseps1_2], [jyseps1_1 = jyseps2_1] and [jyseps1_2 = jyseps2_2])
    the region set has exactly eight regions, lower/upper x inner/outer x
    PFR/SOL, and no core region.  Each PFR is x-connected to the SOL of its
    band.  In y the SOL regions chain lower to upper on the inner leg and
    upper to lower on the outer leg, the PFR regions chain across the legs
    (lower inner to lower outer, upper outer to upper inner), and no region
    is connected to itself. *)
Theorem xpoint_regions (ds : metadata.t)
    (H1 : metadata.jyseps2_1 ds <> metadata.jyseps1_2 ds)
    (H2 : metadata.jyseps1_1 ds = metadata.jyseps2_1 ds)
    (H3 : metadata.jyseps1_2 ds = metadata.jyseps2_2 ds) :
  _get_topology ds = "xpoint" /\
  exists rs,
    _create_regions_toroidal ds = inr rs /\
    length rs = 8%nat /\
    keys rs = ["lower_inner_PFR"; "lower_inner_SOL";
               "upper_inner_PFR"; "upper_inner_SOL";
               "upper_outer_PFR"; "upper_outer_SOL";
               "lower_outer_PFR"; "lower_outer_SOL"] /\
    misnamed rs = [] /\
    links connection_outer rs =
      [("lower_inner_PFR", "lower_inner_SOL");
       ("upper_inner_PFR", "upper_inner_SOL");
       ("upper_outer_PFR", "upper_outer_SOL");
       ("lower_outer_PFR", "lower_outer_SOL")] /\
    links connection_upper rs =
      [("lower_inner_PFR", "lower_outer_PFR");
       ("lower_inner_SOL", "upper_inner_SOL");
       ("upper_outer_PFR", "upper_inner_PFR");
       ("upper_outer_SOL", "lower_outer_SOL")] /\
    symmetric_by_key rs /\
    (forall k r, In (k, r) rs ->
                 connection_upper r <> Some k /\
                 connection_lower r <> Some k).
Proof.
  assert (E : _get_topology ds = "xpoint").
  { unfold _get_topology.
    destruct (Z.eqb_spec (metadata.jyseps2_1 ds) (metadata.jyseps1_2 ds));
      [contradiction|].
    rewrite H2, H3, !Z.eqb_refl. reflexivity. }
  split; [exact E|].
  unfold _create_regions_toroidal. rewrite E. autorewrite with tables.
  generalize (adjust_breakpoints ds); intros b.
  eexists; split; [run_table; reflexivity|].
  repeat apply conj; try reflexivity.
  1-4: check_links.
  intros k r Hin. cbn in Hin.
  repeat (destruct Hin as [Hin|Hin];
          [injection Hin as <- <-; split; discriminate|]).
  contradiction.
Qed.

Lemma xpoint_regions_witness :
  _get_topology ds_xpoint = "xpoint" /\
  exists rs,
    _create_regions_toroidal ds_xpoint = inr rs /\ length rs = 8%nat.
Proof.
  destruct (xpoint_regions ds_xpoint) as (E & rs & Hrs & Hlen & _).
  - cbn; discriminate.
  - reflexivity.
  - reflexivity.
  - split; [exact E|]. exists rs. split; [exact Hrs | exact Hlen].
Defined.

(** ** Keys and names *)

Lemma misnamed_spec (rs : dict Region) (k : string) (r : Region) :
  In (k, r) rs -> (name r <> k <-> In (k, name r) (misnamed rs)).
Proof.
  intros Hin; unfold misnamed; rewrite in_flat_map; split.
  - intros Hne. exists (k, r); split; [exact Hin|]. cbn.
    destruct (String.eqb_spec k (name r)); [congruence | now left].
  - intros ([k' r'] & _ & H). cbn in H.
    destruct (String.eqb_spec k' (name r')) as [|Hne]; [contradiction|].
    destruct H as [[= <- Hn]|[]]. congruence.
Qed.

(** C10.  In the region set of every grid each region is stored under its
    own [name], except on a single-null grid, where exactly two entries
    differ: key ["outer_PFR"] holds the region named ["lower_PFR"] and key
    ["outer_SOL"] the region named ["lower_SOL"]. *)
Theorem keys_and_names (ds : metadata.t) :
  exists rs,
    _create_regions_toroidal ds = inr rs /\
    misnamed rs =
      (if String.eqb (_get_topology ds) "single-null"
       then [("outer_PFR", "lower_PFR"); ("outer_SOL", "lower_SOL")]
       else []) /\
    (forall k r, In (k, r) rs ->
                 (name r <> k <-> In (k, name r) (misnamed rs))).
Proof.
  by_topology ds E.
  all: generalize (adjust_breakpoints ds); intros b.
  all: eexists; split; [run_table; reflexivity|].
  all: split; [reflexivity | intros k r; apply misnamed_spec].
Qed.

(** ** Failure behaviour *)

(** C8 (as stated, refuted).  On [ds_short_outer] the regions
    [upper_outer_PFR] ([0,3) x [8,12)) and [lower_outer_PFR]
    ([0,3) x [10,16)) overlap, so the partition is broken, and the builder
    returns the region set all the same. *)
Lemma broken_partition_is_returned :
  (forall e, _create_regions_toroidal ds_short_outer <> inl e) /\
  exists rs,
    _create_regions_toroidal ds_short_outer = inr rs /\
    ~ partitions rs (adjust_breakpoints ds_short_outer).
Proof.
  split; [intros e; vm_compute; discriminate|].
  eexists; split; [vm_compute; reflexivity|].
  apply (overlap_not_partition _ _ "upper_outer_PFR" "lower_outer_PFR"
           (mkRegion "upper_outer_PFR" 0 3 8 12 None
                     (Some "upper_outer_intersep") None
                     (Some "upper_inner_PFR"))
           (mkRegion "lower_outer_PFR" 0 3 10 16 None
                     (Some "lower_outer_intersep")
                     (Some "lower_inner_PFR") None)
           0 10);
    first [reflexivity | discriminate].
Qed.

(** The dispatch raises [NotImplementedError] for a tag outside the seven. *)
Lemma unknown_topology_not_implemented (b : breakpoints) :
  regions_of_topology "stellarator" b =
  inl (NotImplementedError "Topology 'stellarator' is not implemented").
Proof. reflexivity. Qed.

(** C8 (amended).  Region construction validates nothing: for every metadata
    holding the required keys it returns a non-empty region set with
    distinct keys and raises no exception, whether or not the rectangles
    partition the domain. *)
Theorem create_regions_never_fails (ds : metadata.t) :
  (forall e, _create_regions_toroidal ds <> inl e) /\
  exists rs,
    _create_regions_toroidal ds = inr rs /\ rs <> [] /\ unique_keys rs.
Proof.
  destruct (symmetric_by_key_tables ds) as (rs & Hrs & Huniq & Hsym).
  split; [intros e; rewrite Hrs; discriminate|].
  exists rs; repeat split; try assumption.
  revert Hrs. clear.
  by_topology ds E.
  all: generalize (adjust_breakpoints ds); intros b.
  all: run_table; intros [= <-]; discriminate.
Qed.

(** * Further properties *)

(** ** Dictionary lookups and updates *)

Lemma getitem_setitem_eq {V : Type} (d : dict V) (k : string) (v : V) :
  getitem (setitem d k v) k = inr v.
Proof.
  induction d as [|[k' v'] d IH]; cbn.
  - now rewrite String.eqb_refl.
  - destruct (String.eqb_spec k k') as [->|Hne]; cbn.
    + now rewrite String.eqb_refl.
    + destruct (String.eqb_spec k k'); [contradiction | exact IH].
Qed.

Lemma getitem_setitem_neq {V : Type} (d : dict V) (k k' : string) (v : V) :
  k <> k' -> getitem (setitem d k v) k' = getitem d k'.
Proof.
  intros Hne. induction d as [|[k0 v0] d IH]; cbn.
  - destruct (String.eqb_spec k' k); [congruence | reflexivity].
  - destruct (String.eqb_spec k k0) as [->|Hk]; cbn.
    + destruct (String.eqb_spec k' k0); [congruence | reflexivity].
    + destruct (String.eqb_spec k' k0); [reflexivity | exact IH].
Qed.

Lemma getitem_error {V : Type} (d : dict V) (k : string) (e : exception) :
  getitem d k = inl e -> e = KeyError k /\ ~ In k (keys d).
Proof.
  induction d as [|[k' v'] d IH]; cbn.
  - intros [= <-]; split; [reflexivity | tauto].
  - destruct (String.eqb_spec k k') as [->|Hne]; [discriminate|].
    intros H; destruct (IH H) as [-> Hn]; split; [reflexivity|].
    intros [?|?]; [congruence | contradiction].
Qed.

Lemma getitem_present {V : Type} (d : dict V) (k : string) :
  In k (keys d) -> exists v, getitem d k = inr v.
Proof.
  intros Hin. destruct (getitem d k) as [e|v] eqn:E; [|now exists v].
  apply getitem_error in E. tauto.
Qed.

Lemma getitem_keys {V : Type} (d : dict V) (k : string) (v : V) :
  getitem d k = inr v -> In k (keys d).
Proof. intros H. apply getitem_In in H. apply (in_map fst) in H. exact H. Qed.

(** Updating the value under a key that is present is a pointwise map. *)
Lemma setitem_update_at {V : Type} (d : dict V) (k : string) (v : V)
    (f : V -> V) :
  unique_keys d -> getitem d k = inr v ->
  setitem d k (f v) = map (update_at k f) d.
Proof.
  unfold unique_keys, keys, update_at.
  induction d as [|[k' v'] d IH]; cbn; [discriminate|].
  intros Hnd Hget. inversion Hnd as [|? ? Hnotin Hnd']; subst.
  destruct (String.eqb_spec k k') as [->|Hne].
  - injection Hget as ->. rewrite String.eqb_refl. f_equal.
    clear IH Hnd Hnd'. induction d as [|[k0 v0] d IH]; cbn; [reflexivity|].
    cbn in Hnotin.
    destruct (String.eqb_spec k0 k') as [->|Hne0]; [tauto|].
    f_equal. apply IH. tauto.
  - destruct (String.eqb_spec k' k); [congruence|].
    f_equal. apply IH; assumption.
Qed.

Lemma keys_update_at {V : Type} (d : dict V) (k : string) (f : V -> V) :
  keys (map (update_at k f) d) = keys d.
Proof. unfold keys. rewrite map_map. reflexivity. Qed.

Lemma getitem_update_at {V : Type} (d : dict V) (k k' : string)
    (f : V -> V) :
  getitem (map (update_at k f) d) k' =
  match getitem d k' with
  | inr v => inr (if String.eqb k' k then f v else v)
  | inl e => inl e
  end.
Proof.
  induction d as [|[k0 v0] d IH]; cbn; [reflexivity|].
  destruct (String.eqb_spec k' k0) as [->|Hne]; [reflexivity | exact IH].
Qed.

Lemma create_connection_x_map (regions : dict Region) (a b : string)
    (A B : Region) :
  unique_keys regions ->
  getitem regions a = inr A -> getitem regions b = inr B ->
  _create_connection_x regions a b = inr (map (wire_x a b) regions).
Proof.
  intros Hu Ha Hb. unfold _create_connection_x, bind, ret. rewrite Ha.
  rewrite (setitem_update_at regions a A
             (fun r => set_connection_outer r (Some b))) by assumption.
  rewrite getitem_update_at, Hb.
  rewrite (setitem_update_at _ b _ (fun r => set_connection_inner r (Some a))).
  - rewrite map_map. reflexivity.
  - unfold unique_keys. rewrite keys_update_at. exact Hu.
  - rewrite getitem_update_at, Hb. reflexivity.
Qed.

Lemma create_connection_y_map (regions : dict Region) (a b : string)
    (A B : Region) :
  unique_keys regions ->
  getitem regions a = inr A -> getitem regions b = inr B ->
  _create_connection_y regions a b = inr (map (wire_y a b) regions).
Proof.
  intros Hu Ha Hb. unfold _create_connection_y, bind, ret. rewrite Ha.
  rewrite (setitem_update_at regions a A
             (fun r => set_connection_upper r (Some b))) by assumption.
  rewrite getitem_update_at, Hb.
  rewrite (setitem_update_at _ b _ (fun r => set_connection_lower r (Some a))).
  - rewrite map_map. reflexivity.
  - unfold unique_keys. rewrite keys_update_at. exact Hu.
  - rewrite getitem_update_at, Hb. reflexivity.
Qed.

(** ** The wiring helpers *)

Lemma connection_key_errors (get1 : dict Region -> string -> string ->
                                    result (dict Region))
    (s1 s2 : Region -> option string -> Region) :
  (forall regions a b,
     get1 regions a b =
     (r <- getitem regions a ;;
      let regions := setitem regions a (s1 r (Some b)) in
      r <- getitem regions b ;;
      ret (setitem regions b (s2 r (Some a))))) ->
  forall regions a b,
    match get1 regions a b with
    | inr _ => In a (keys regions) /\ In b (keys regions)
    | inl e => (~ In a (keys regions) /\ e = KeyError a) \/
               (In a (keys regions) /\ ~ In b (keys regions) /\
                e = KeyError b)
    end.
Proof.
  intros Hdef regions a b. rewrite Hdef. unfold bind, ret.
  destruct (getitem regions a) as [e|A] eqn:Ha.
  - apply getitem_error in Ha. left. tauto.
  - pose proof (getitem_keys _ _ _ Ha) as Hina.
    destruct (String.eqb_spec a b) as [<-|Hne].
    + rewrite getitem_setitem_eq. tauto.
    + rewrite getitem_setitem_neq by assumption.
      destruct (getitem regions b) as [e|B] eqn:Hb.
      * apply getitem_error in Hb. right. tauto.
      * split; [assumption | eapply getitem_keys; eassumption].
Qed.

(** X10.  [_create_connection_x] and [_create_connection_y] succeed exactly
    when both keys are present; otherwise they raise [KeyError] for the first
    missing key, the first argument being looked up first. *)
Theorem create_connection_key_errors (regions : dict Region) (a b : string) :
  match _create_connection_x regions a b with
  | inr _ => In a (keys regions) /\ In b (keys regions)
  | inl e => (~ In a (keys regions) /\ e = KeyError a) \/
             (In a (keys regions) /\ ~ In b (keys regions) /\
              e = KeyError b)
  end /\
  match _create_connection_y regions a b with
  | inr _ => In a (keys regions) /\ In b (keys regions)
  | inl e => (~ In a (keys regions) /\ e = KeyError a) \/
             (In a (keys regions) /\ ~ In b (keys regions) /\
              e = KeyError b)
  end.
Proof.
  split.
  - apply (connection_key_errors _create_connection_x
             set_connection_outer set_connection_inner). reflexivity.
  - apply (connection_key_errors _create_connection_y
             set_connection_upper set_connection_lower). reflexivity.
Qed.

Lemma getitem_wire_x (regions : dict Region) (a b k : string) :
  getitem (map (wire_x a b) regions) k =
  match getitem regions k with
  | inr r => inr (snd (wire_x a b (k, r)))
  | inl e => inl e
  end.
Proof.
  induction regions as [|[k0 r0] d IH]; cbn; [reflexivity|].
  destruct (String.eqb_spec k k0) as [->|Hne]; [reflexivity | exact IH].
Qed.

Lemma getitem_wire_y (regions : dict Region) (a b k : string) :
  getitem (map (wire_y a b) regions) k =
  match getitem regions k with
  | inr r => inr (snd (wire_y a b (k, r)))
  | inl e => inl e
  end.
Proof.
  induction regions as [|[k0 r0] d IH]; cbn; [reflexivity|].
  destruct (String.eqb_spec k k0) as [->|Hne]; [reflexivity | exact IH].
Qed.

Lemma keys_wire_x (regions : dict Region) (a b : string) :
  keys (map (wire_x a b) regions) = keys regions.
Proof. unfold keys. rewrite map_map. reflexivity. Qed.

Lemma keys_wire_y (regions : dict Region) (a b : string) :
  keys (map (wire_y a b) regions) = keys regions.
Proof. unfold keys. rewrite map_map. reflexivity. Qed.

(** X11.  On a dictionary holding both keys, [_create_connection_x] keeps the
    keys and their order and every region's name, bounds and y-connections;
    it sets [connection_outer] of the region under [inner] to [outer] and
    [connection_inner] of the region under [outer] to [inner] (both on the
    same region when [inner = outer]) and changes no other x-connection.
    [_create_connection_y] does the same with the y-connections. *)
Theorem create_connection_effect (regions : dict Region) (a b : string)
    (Hu : unique_keys regions)
    (Ha : In a (keys regions)) (Hb : In b (keys regions)) :
  exists rx ry,
    _create_connection_x regions a b = inr rx /\
    _create_connection_y regions a b = inr ry /\
    keys rx = keys regions /\ keys ry = keys regions /\
    forall k r,
      getitem regions k = inr r ->
      exists r' r'',
        getitem rx k = inr r' /\ getitem ry k = inr r'' /\
        same_name_and_rectangle r r' /\ same_name_and_rectangle r r'' /\
        connection_lower r' = connection_lower r /\
        connection_upper r' = connection_upper r /\
        connection_outer r' =
          (if String.eqb k a then Some b else connection_outer r) /\
        connection_inner r' =
          (if String.eqb k b then Some a else connection_inner r) /\
        connection_inner r'' = connection_inner r /\
        connection_outer r'' = connection_outer r /\
        connection_upper r'' =
          (if String.eqb k a then Some b else connection_upper r) /\
        connection_lower r'' =
          (if String.eqb k b then Some a else connection_lower r).
Proof.
  destruct (getitem_present _ _ Ha) as [A HA].
  destruct (getitem_present _ _ Hb) as [B HB].
  exists (map (wire_x a b) regions), (map (wire_y a b) regions).
  split; [eapply create_connection_x_map; eassumption|].
  split; [eapply create_connection_y_map; eassumption|].
  split; [apply keys_wire_x|]. split; [apply keys_wire_y|].
  intros k r Hk.
  rewrite getitem_wire_x, getitem_wire_y, Hk.
  eexists; eexists. split; [reflexivity|]. split; [reflexivity|].
  unfold wire_x, wire_y, same_name_and_rectangle; cbn [fst snd].
  destruct (String.eqb k a), (String.eqb k b); cbn; repeat split.
Qed.

Lemma create_connection_effect_witness :
  exists rx,
    _create_connection_x regions_example "core" "SOL" = inr rx /\
    keys rx = ["core"; "SOL"; "edge"].
Proof.
  destruct (create_connection_effect regions_example "core" "SOL")
    as (rx & ry & Hx & _ & Hk & _).
  - unfold unique_keys; cbn.
    repeat (apply NoDup_cons; [cbn; intuition discriminate|]).
    apply NoDup_nil.
  - cbn; tauto.
  - cbn; tauto.
  - exists rx. split; [exact Hx | exact Hk].
Defined.

(** X12.  Wiring never removes a link: after [inner] has been connected to
    [b] and then to another region [c], [inner] points outward to [c] only,
    while [b] still names [inner] as its inner neighbour. *)
Theorem rewiring_leaves_stale_link (regions : dict Region) (a b c : string)
    (Hu : unique_keys regions)
    (Ha : In a (keys regions)) (Hb : In b (keys regions))
    (Hc : In c (keys regions)) (Hbc : b <> c) :
  exists r1 r2 A B,
    _create_connection_x regions a b = inr r1 /\
    _create_connection_x r1 a c = inr r2 /\
    getitem r2 a = inr A /\ connection_outer A = Some c /\
    getitem r2 b = inr B /\ connection_inner B = Some a.
Proof.
  destruct (getitem_present _ _ Ha) as [A HA].
  destruct (getitem_present _ _ Hb) as [B HB].
  destruct (getitem_present _ _ Hc) as [C HC].
  assert (Hu1 : unique_keys (map (wire_x a b) regions))
    by (unfold unique_keys; rewrite keys_wire_x; exact Hu).
  exists (map (wire_x a b) regions),
         (map (wire_x a c) (map (wire_x a b) regions)).
  eexists; eexists.
  split; [eapply create_connection_x_map; eassumption|].
  split.
  { eapply create_connection_x_map; [exact Hu1| |];
      rewrite getitem_wire_x; [rewrite HA | rewrite HC]; reflexivity. }
  rewrite !getitem_wire_x, HA, HB.
  split; [reflexivity|]. split.
  - unfold wire_x; cbn [fst snd]. rewrite !String.eqb_refl.
    destruct (String.eqb a b), (String.eqb a c); reflexivity.
  - split; [reflexivity|].
    unfold wire_x; cbn [fst snd]. rewrite !String.eqb_refl.
    destruct (String.eqb_spec b c); [contradiction|].
    destruct (String.eqb b a); reflexivity.
Qed.

Lemma rewiring_leaves_stale_link_witness :
  exists r1 r2 A B,
    _create_connection_x regions_example "core" "SOL" = inr r1 /\
    _create_connection_x r1 "core" "edge" = inr r2 /\
    getitem r2 "core" = inr A /\ connection_outer A = Some "edge" /\
    getitem r2 "SOL" = inr B /\ connection_inner B = Some "core".
Proof.
  apply (rewiring_leaves_stale_link regions_example "core" "SOL" "edge").
  - unfold unique_keys; cbn.
    repeat (apply NoDup_cons; [cbn; intuition discriminate|]).
    apply NoDup_nil.
  - cbn; tauto.
  - cbn; tauto.
  - cbn; tauto.
  - discriminate.
Defined.

(** X13.  x-wiring and y-wiring are independent: connecting in x and then in
    y gives the same dictionary as connecting in y and then in x. *)
Theorem x_and_y_wiring_commute (regions : dict Region) (a b c d : string)
    (Hu : unique_keys regions)
    (Ha : In a (keys regions)) (Hb : In b (keys regions))
    (Hc : In c (keys regions)) (Hd : In d (keys regions)) :
  exists rs,
    (r <- _create_connection_x regions a b ;; _create_connection_y r c d)
      = inr rs /\
    (r <- _create_connection_y regions c d ;; _create_connection_x r a b)
      = inr rs.
Proof.
  destruct (getitem_present _ _ Ha) as [A HA].
  destruct (getitem_present _ _ Hb) as [B HB].
  destruct (getitem_present _ _ Hc) as [C HC].
  destruct (getitem_present _ _ Hd) as [D HD].
  exists (map (wire_y c d) (map (wire_x a b) regions)).
  rewrite (create_connection_x_map regions a b A B) by assumption.
  rewrite (create_connection_y_map regions c d C D) by assumption.
  unfold bind. split.
  - eapply create_connection_y_map.
    + unfold unique_keys; rewrite keys_wire_x; exact Hu.
    + rewrite getitem_wire_x, HC; reflexivity.
    + rewrite getitem_wire_x, HD; reflexivity.
  - erewrite create_connection_x_map.
    + rewrite !map_map. apply f_equal. apply map_ext. intros [k r].
      unfold wire_x, wire_y; cbn [fst snd].
      destruct (String.eqb k a), (String.eqb k b), (String.eqb k c),
        (String.eqb k d); reflexivity.
    + unfold unique_keys; rewrite keys_wire_y; exact Hu.
    + rewrite getitem_wire_y, HA; reflexivity.
    + rewrite getitem_wire_y, HB; reflexivity.
Qed.

Lemma x_and_y_wiring_commute_witness :
  exists rs,
    (r <- _create_connection_x regions_example "core" "SOL" ;;
     _create_connection_y r "core" "core") = inr rs /\
    (r <- _create_connection_y regions_example "core" "core" ;;
     _create_connection_x r "core" "SOL") = inr rs.
Proof.
  apply (x_and_y_wiring_commute regions_example "core" "SOL" "core" "core").
  - unfold unique_keys; cbn.
    repeat (apply NoDup_cons; [cbn; intuition discriminate|]).
    apply NoDup_nil.
  - cbn; tauto.
  - cbn; tauto.
  - cbn; tauto.
  - cbn; tauto.
Defined.

(** ** Slices and helpers *)

(** X1.  Called with its default guard widths, [getSlices] returns the
    region's own x- and y-ranges, whatever connections the region has. *)
Theorem getSlices_default_widths (r : Region) :
  getSlices r 0 0 =
  (mkslice (xinner_ind r) (xouter_ind r),
   mkslice (ylower_ind r) (yupper_ind r)).
Proof.
  unfold getSlices.
  destruct (connection_inner r), (connection_outer r),
    (connection_lower r), (connection_upper r); cbn;
    rewrite ?Z.sub_0_r, ?Z.add_0_r; reflexivity.
Qed.



(** X3.  For a non-empty interval [_in_range] returns a value of the
    interval, leaves a value of the interval unchanged, is monotone in the
    value and is idempotent. *)
Theorem in_range_clamps (val val' lower upper : Z) (H : lower <= upper) :
  lower <= _in_range val lower upper <= upper /\
  (lower <= val <= upper -> _in_range val lower upper = val) /\
  (_in_range val lower upper = val -> lower <= val <= upper) /\
  (val <= val' -> _in_range val lower upper <= _in_range val' lower upper) /\
  _in_range (_in_range val lower upper) lower upper =
    _in_range val lower upper.
Proof.
  rewrite !in_range_clamp by assumption.
  unfold clamp. repeat split; intros; lia.
Qed.

Lemma in_range_clamps_witness :
  0 <= _in_range 10 0 4 <= 4 /\ _in_range (-1) 0 7 = 0.
Proof.
  destruct (in_range_clamps 10 10 0 4 ltac:(lia)) as (Hb & _).
  split; [exact Hb | reflexivity].
Defined.

(** X4.  For an empty interval ([upper < lower], as [0, ny - 1] is for
    [ny = 0]) [_in_range] returns [lower] for a value below [lower] and
    [upper] for every other value: the result is one of the two bounds and
    never the value itself. *)
Theorem in_range_empty_interval (val lower upper : Z) (H : upper < lower) :
  (val < lower -> _in_range val lower upper = lower) /\
  (lower <= val -> _in_range val lower upper = upper) /\
  (_in_range val lower upper = lower \/ _in_range val lower upper = upper) /\
  _in_range val lower upper <> val.
Proof.
  unfold _in_range. rewrite Z.gtb_ltb.
  destruct (Z.ltb_spec val lower), (Z.ltb_spec upper val);
    repeat split; intros; lia.
Qed.

Lemma in_range_empty_interval_witness :
  _in_range 3 0 (-1) = -1 /\ _in_range (-3) 0 (-1) = 0.
Proof.
  destruct (in_range_empty_interval 3 0 (-1) ltac:(lia)) as (_ & H1 & _).
  destruct (in_range_empty_interval (-3) 0 (-1) ltac:(lia)) as (H2 & _).
  split; [apply H1; lia | apply H2; lia].
Defined.

(** X5.  [_order_vars] returns its two arguments in non-decreasing order:
    the pair is sorted, holds the same two values, is left alone when
    already sorted, and sorting twice changes nothing. *)
Theorem order_vars_sorts (lower upper : Z) :
  fst (_order_vars lower upper) <= snd (_order_vars lower upper) /\
  (_order_vars lower upper = (lower, upper) \/
   _order_vars lower upper = (upper, lower)) /\
  (lower <= upper <-> _order_vars lower upper = (lower, upper)) /\
  _order_vars lower upper = _order_vars upper lower /\
  _order_vars (fst (_order_vars lower upper)) (snd (_order_vars lower upper))
    = _order_vars lower upper.
Proof.
  unfold _order_vars.
  destruct (Z.ltb_spec upper lower) as [H|H]; cbn [fst snd];
    destruct (Z.ltb_spec lower upper) as [H'|H']; try lia;
    rewrite ?(proj2 (Z.ltb_ge upper lower)) by lia;
    repeat split; intros; try lia; auto;
    try match goal with
        | E : (_, _) = (_, _) |- _ => injection E; intros; lia
        end;
    try (assert (lower = upper) by lia; subst; reflexivity).
Qed.

(** ** Classifier and preprocessing *)

(** X6.  The tags of the grids with divertor legs, as conditions on the
    metadata: ['single-null'] when the two middle breakpoints coincide and
    the grid has a leg; ['xpoint'] when they differ and each pair of
    breakpoints coincides, whatever the separatrix indices are; otherwise
    ['connected-double-null'] or ['disconnected-double-null'] according to
    [ixseps1 = ixseps2]. *)
Theorem get_topology_leg_tags (ds : metadata.t) :
  let j11 := metadata.jyseps1_1 ds in
  let j21 := metadata.jyseps2_1 ds in
  let j12 := metadata.jyseps1_2 ds in
  let j22 := metadata.jyseps2_2 ds in
  (_get_topology ds = "single-null" <->
   j21 = j12 /\ ~ (j11 <= 0 /\ j22 >= metadata.ny ds - 1)) /\
  (_get_topology ds = "xpoint" <->
   j21 <> j12 /\ j11 = j21 /\ j12 = j22) /\
  (_get_topology ds = "connected-double-null" <->
   j21 <> j12 /\ ~ (j11 = j21 /\ j12 = j22) /\
   metadata.ixseps1 ds = metadata.ixseps2 ds) /\
  (_get_topology ds = "disconnected-double-null" <->
   j21 <> j12 /\ ~ (j11 = j21 /\ j12 = j22) /\
   metadata.ixseps1 ds <> metadata.ixseps2 ds) /\
  (In (_get_topology ds) ["core"; "sol"; "limiter"] <->
   j21 = j12 /\ j11 <= 0 /\ j22 >= metadata.ny ds - 1).
Proof.
  cbv zeta. unfold _get_topology. rewrite !Z.geb_leb.
  destruct (Z.eqb_spec (metadata.jyseps2_1 ds) (metadata.jyseps1_2 ds));
    destruct (Z.leb_spec (metadata.jyseps1_1 ds) 0);
    destruct (Z.leb_spec (metadata.ny ds - 1) (metadata.jyseps2_2 ds));
    destruct (Z.eqb_spec (metadata.jyseps1_1 ds) (metadata.jyseps2_1 ds));
    destruct (Z.eqb_spec (metadata.jyseps1_2 ds) (metadata.jyseps2_2 ds));
    destruct (Z.eqb_spec (metadata.ixseps1 ds) (metadata.ixseps2 ds));
    cbn [andb];
    try destruct (Z.leb_spec (metadata.nx ds - 1)
                    (Z.min (metadata.ixseps1 ds) (metadata.ixseps2 ds)));
    try destruct (Z.leb_spec
                    (Z.min (metadata.ixseps1 ds) (metadata.ixseps2 ds)) 0);
    cbn [In];
    repeat split; intros;
    repeat match goal with
           | H : _ /\ _ |- _ => destruct H
           | H : _ \/ _ |- _ => destruct H
           end;
    try discriminate; try contradiction; try lia; try tauto;
    try (exfalso;
         match goal with H : ~ _ |- _ => apply H; split; lia end).
Qed.

(** X7.  On a grid with [0 <= nx], [1 <= ny] and [0 <= MYG] the
    preprocessing guarantees, whatever the breakpoints in the metadata are:
    the separatrix indices are ordered, every y-breakpoint lies in
    [0, ny), [jys21 <= jys12], and [nyinner] lies between [jys21 + 1] and
    [jys12 + 1]; with the x-boundaries kept the separatrix indices lie in
    [0, nx]. *)
Theorem adjusted_breakpoints_guarantees (ds : metadata.t)
    (Hnx : 0 <= metadata.nx ds) (Hny : 1 <= metadata.ny ds)
    (Hmyg : 0 <= metadata.MYG ds) :
  let b := adjust_breakpoints ds in
  ixs1 b <= ixs2 b /\
  0 <= jys11 b < ny b /\
  0 <= jys21 b /\ jys21 b <= jys12 b /\ jys12 b < ny b /\
  jys21 b + 1 <= nyinner b <= jys12 b + 1 /\
  0 <= jys22 b < ny b /\
  (metadata.keep_xboundaries ds = true ->
   0 <= ixs1 b /\ ixs2 b <= nx b /\ nx b = metadata.nx ds).
Proof.
  cbv zeta.
  rewrite adjust_breakpoints_closed_form by lia.
  unfold reference_preprocessing, ordered_pair.
  cbn [ixs1 ixs2 nx jys11 jys21 nyinner jys12 jys22 ny].
  pose proof (clamp_bounds (metadata.ixseps1 ds) 0 _ Hnx) as B1.
  pose proof (clamp_bounds (metadata.ixseps2 ds) 0 _ Hnx) as B2.
  assert (Hny' : 0 <= metadata.ny ds - 1) by lia.
  pose proof (clamp_bounds (metadata.jyseps1_1 ds) 0 _ Hny') as B11.
  pose proof (clamp_bounds (metadata.jyseps2_1 ds) 0 _ Hny') as B21.
  pose proof (clamp_bounds (metadata.jyseps1_2 ds) 0 _ Hny') as B12.
  pose proof (clamp_bounds (metadata.jyseps2_2 ds) 0 _ Hny') as B22.
  revert B1 B2 B11 B21 B12 B22.
  generalize (clamp (metadata.ixseps1 ds) 0 (metadata.nx ds)).
  generalize (clamp (metadata.ixseps2 ds) 0 (metadata.nx ds)).
  generalize (clamp (metadata.jyseps1_1 ds) 0 (metadata.ny ds - 1)).
  generalize (clamp (metadata.jyseps2_1 ds) 0 (metadata.ny ds - 1)).
  generalize (clamp (metadata.jyseps1_2 ds) 0 (metadata.ny ds - 1)).
  generalize (clamp (metadata.jyseps2_2 ds) 0 (metadata.ny ds - 1)).
  intros c22 c12 c21 c11 x2 x1 B1 B2 B11 B21 B12 B22.
  assert (Bn : Z.min c21 c12 + 1
               <= clamp (metadata.ny_inner ds) (Z.min c21 c12 + 1)
                        (Z.max c21 c12 + 1)
               <= Z.max c21 c12 + 1)
    by (apply clamp_bounds; lia).
  revert Bn.
  generalize (clamp (metadata.ny_inner ds) (Z.min c21 c12 + 1)
                    (Z.max c21 c12 + 1)).
  intros nyi Bn.
  destruct (metadata.keep_xboundaries ds), (metadata.keep_yboundaries ds);
    repeat split; intros; try discriminate; lia.
Qed.

Lemma adjusted_breakpoints_guarantees_witness :
  ixs1 (adjust_breakpoints ds_unordered)
    <= ixs2 (adjust_breakpoints ds_unordered) /\
  jys21 (adjust_breakpoints ds_unordered) + 1
    <= nyinner (adjust_breakpoints ds_unordered)
    <= jys12 (adjust_breakpoints ds_unordered) + 1.
Proof.
  pose proof (adjusted_breakpoints_guarantees ds_unordered) as H.
  cbv zeta in H.
  destruct H as (H1 & _ & _ & _ & _ & H2 & _).
  - cbn; lia.
  - cbn; lia.
  - cbn; lia.
  - split; [exact H1 | exact H2].
Defined.

(** X9.  On a limiter grid read with its x-boundaries the separatrix used
    by the table is [min ixseps1 ixseps2], unchanged by the clamping, and
    lies strictly inside the grid: both the [core] and the [SOL] region are
    at least one cell wide. *)
Theorem limiter_separatrix_inside (ds : metadata.t)
    (Ht : _get_topology ds = "limiter")
    (Hk : metadata.keep_xboundaries ds = true) :
  let b := adjust_breakpoints ds in
  ixs1 b = Z.min (metadata.ixseps1 ds) (metadata.ixseps2 ds) /\
  nx b = metadata.nx ds /\
  1 <= ixs1 b <= nx b - 2.
Proof.
  assert (Hix : 1 <= Z.min (metadata.ixseps1 ds) (metadata.ixseps2 ds)
                  <= metadata.nx ds - 2).
  { revert Ht. unfold _get_topology. rewrite !Z.geb_leb.
    repeat match goal with
           | |- context [if ?c then _ else _] =>
               let E := fresh "E" in destruct c eqn:E
           end; try discriminate.
    intros _. apply Z.leb_gt in E1, E2. lia. }
  cbv zeta. unfold adjust_breakpoints. rewrite Hk. cbn [negb].
  destruct (_order_vars (_in_range (metadata.jyseps2_1 ds) _ _) _)
    as [j21 j12].
  unfold _order_vars, _in_range. rewrite !Z.gtb_ltb.
  repeat match goal with
         | |- context [?a <? ?b] => destruct (Z.ltb_spec a b)
         end; cbn [ixs1 nx]; lia.
Qed.

Lemma limiter_separatrix_inside_witness :
  ixs1 (adjust_breakpoints ds_limiter) = 4 /\
  1 <= ixs1 (adjust_breakpoints ds_limiter)
    <= nx (adjust_breakpoints ds_limiter) - 2.
Proof.
  pose proof (limiter_separatrix_inside ds_limiter) as H. cbv zeta in H.
  destruct H as (H1 & _ & H3).
  - reflexivity.
  - reflexivity.
  - split; [exact H1 | exact H3].
Defined.

(** ** The region sets *)

Lemma each_link_impl (f : Region -> option string)
    (P Q : string -> Region -> string -> Region -> Prop)
    (rs : dict Region) :
  (forall a A b B, P a A b B -> Q a A b B) ->
  each_link f P rs -> each_link f Q rs.
Proof.
  intros HPQ HP a A b Hin Hf.
  destruct (HP a A b Hin Hf) as (B & HB & HPB).
  exists B; split; [exact HB | apply HPQ; exact HPB].
Qed.

Lemma seams_by_design_tables (ds : metadata.t) :
  (_get_topology ds = "single-null" ->
   ixs1 (adjust_breakpoints ds) = ixs2 (adjust_breakpoints ds)) ->
  exists rs,
    _create_regions_toroidal ds = inr rs /\ seams_by_design rs.
Proof.
  intros Hsn.
  pose proof (connected_double_null_separatrices ds) as Hcdn.
  revert Hsn Hcdn.
  by_topology ds E.
  all: generalize (adjust_breakpoints ds); intros b Hsn Hcdn.
  all: try specialize (Hsn eq_refl); try specialize (Hcdn eq_refl).
  all: eexists; split; [run_table; reflexivity|].
  all: unfold seams_by_design; split; check_links.
Qed.

(** X14.  In the region set of every grid the connections are mutual when
    followed by dictionary key: the region an [inner], [outer], [lower] or
    [upper] connection points to exists and points back through the opposite
    connection. *)
Theorem connections_mutual_by_key (ds : metadata.t) :
  exists rs,
    _create_regions_toroidal ds = inr rs /\
    symmetric_by_key rs /\
    (forall k r c,
       In (k, r) rs ->
       In (Some c) [connection_inner r; connection_outer r;
                    connection_lower r; connection_upper r] ->
       In c (keys rs)).
Proof.
  destruct (symmetric_by_key_tables ds) as (rs & Hrs & _ & Hsym).
  exists rs. split; [exact Hrs|]. split; [exact Hsym|].
  destruct Hsym as (Ho & Hi & Hu & Hl).
  intros k r c Hin Hc. cbn [In] in Hc.
  destruct Hc as [Hc|[Hc|[Hc|[Hc|[]]]]].
  - destruct (Hi k r c Hin Hc) as (B & HB & _). eapply getitem_keys, HB.
  - destruct (Ho k r c Hin Hc) as (B & HB & _). eapply getitem_keys, HB.
  - destruct (Hl k r c Hin Hc) as (B & HB & _). eapply getitem_keys, HB.
  - destruct (Hu k r c Hin Hc) as (B & HB & _). eapply getitem_keys, HB.
Qed.

(** X15.  The region set holds 18 regions on a disconnected double-null
    grid, 12 on a connected double-null grid, 6 on a single-null grid, 2 on
    a limiter grid, 1 on a core or sol grid and 8 on an x-point grid, under
    the keys of [region_keys]; the one region of a sol grid is stored under
    ['sol'], in lower case, unlike the ['SOL'] of the other tables. *)
Theorem region_keys_per_topology (ds : metadata.t) :
  exists rs,
    _create_regions_toroidal ds = inr rs /\
    keys rs = region_keys (_get_topology ds) /\
    length rs = region_count (_get_topology ds) /\
    (In "SOL" (keys rs) <->
     _get_topology ds = "single-null" \/ _get_topology ds = "limiter").
Proof.
  by_topology ds E.
  all: generalize (adjust_breakpoints ds); intros b.
  all: eexists; split; [run_table; reflexivity|].
  all: split; [reflexivity|]; split; [reflexivity|].
  all: cbn; split; intros H;
    repeat match goal with
           | H : _ \/ _ |- _ => destruct H
           end; try discriminate; try contradiction; tauto.
Qed.

(** X16.  In the region set of every grid a side without a connection is an
    edge of the domain: [xinner_ind = 0] without inner connection,
    [xouter_ind = nx] without outer connection, and in y the region starts
    at [0] or at [nyinner] without lower connection and ends at [ny] or at
    [nyinner] without upper connection. *)
Theorem open_sides_are_edges (ds : metadata.t) :
  exists rs,
    _create_regions_toroidal ds = inr rs /\
    open_sides_on_edges (adjust_breakpoints ds) rs.
Proof.
  by_topology ds E.
  all: generalize (adjust_breakpoints ds); intros b.
  all: eexists; split; [run_table; reflexivity|].
  all: intros k r Hin; cbn [In] in Hin.
  all: repeat (destruct Hin as [Hin|Hin];
               [injection Hin as <- <-; cbn;
                repeat split; intros; try discriminate; auto|]).
  all: contradiction.
Qed.

(** X17.  Across every x-connection [A.connection_outer = B] the guard band
    that [A.getOuterGuardsSlices(mxg)] selects lies inside [B] when [B] is at
    least [mxg] wide, and the band that [B.getInnerGuardsSlices(mxg)] selects
    lies inside [A] when [A] is at least [mxg] wide (a single-null grid being
    taken with coinciding adjusted separatrix indices). *)
Theorem x_guard_bands_inside_neighbours (ds : metadata.t) (mxg : Z)
    (Hsn : _get_topology ds = "single-null" ->
           ixs1 (adjust_breakpoints ds) = ixs2 (adjust_breakpoints ds))
    (Hg : 0 <= mxg) :
  exists rs,
    _create_regions_toroidal ds = inr rs /\
    each_link connection_outer
      (fun _ A _ B =>
         (mxg <= xouter_ind B - xinner_ind B ->
          band_inside (getOuterGuardsSlices A mxg) B) /\
         (mxg <= xouter_ind A - xinner_ind A ->
          band_inside (getInnerGuardsSlices B mxg) A)) rs.
Proof.
  destruct (seams_by_design_tables ds Hsn) as (rs & Hrs & Hx & _).
  exists rs; split; [exact Hrs|].
  revert Hx. apply each_link_impl.
  intros a A b B (Hseam & Hyl & Hyu).
  unfold band_inside, getOuterGuardsSlices, getInnerGuardsSlices, in_slice,
    in_region; cbn [fst snd start stop].
  split; intros Hw x y Hbx Hby;
    apply andb_true_iff in Hbx, Hby;
    rewrite Z.leb_le, Z.ltb_lt in Hbx, Hby;
    rewrite !andb_true_iff, !Z.leb_le, !Z.ltb_lt; lia.
Qed.

Lemma x_guard_bands_inside_neighbours_witness :
  exists rs,
    _create_regions_toroidal ds_double_null = inr rs /\
    each_link connection_outer
      (fun _ A _ B =>
         (2 <= xouter_ind B - xinner_ind B ->
          band_inside (getOuterGuardsSlices A 2) B) /\
         (2 <= xouter_ind A - xinner_ind A ->
          band_inside (getInnerGuardsSlices B 2) A)) rs.
Proof.
  apply (x_guard_bands_inside_neighbours ds_double_null 2).
  - cbn; discriminate.
  - lia.
Defined.

(** X18.  On a single-null grid with ordered adjusted breakpoints no cell is
    covered twice, and the cells of the domain that no region covers are
    exactly those between the two separatrix indices in the core band,
    [ixs1 <= x < ixs2] and [jys11 + 1 <= y < jys22 + 1]. *)
Theorem single_null_coverage (ds : metadata.t)
    (Ht : _get_topology ds = "single-null")
    (Hord : well_ordered (adjust_breakpoints ds)) :
  exists rs,
    _create_regions_toroidal ds = inr rs /\
    forall x y,
      cover_count rs x y =
      if in_domain (adjust_breakpoints ds) x y &&
         negb (in_single_null_gap (adjust_breakpoints ds) x y)
      then 1%nat else 0%nat.
Proof.
  unfold _create_regions_toroidal. rewrite Ht. autorewrite with tables.
  revert Hord. generalize (adjust_breakpoints ds); intros b Hord.
  eexists; split; [run_table; reflexivity|].
  intros x y. open_count. unfold in_single_null_gap.
  unfold well_ordered in Hord.
  assert (Hx : x < 0 \/ 0 <= x < ixs1 b \/ ixs1 b <= x < ixs2 b \/
               ixs2 b <= x < nx b \/ nx b <= x) by lia.
  assert (Hy : y < 0 \/ 0 <= y < jys11 b + 1 \/
               jys11 b + 1 <= y < jys22 b + 1 \/
               jys22 b + 1 <= y < ny b \/ ny b <= y) by lia.
  destruct Hx as [Hx|[Hx|[Hx|[Hx|Hx]]]], Hy as [Hy|[Hy|[Hy|[Hy|Hy]]]];
    resolve_cmp; reflexivity.
Qed.

Lemma single_null_coverage_witness :
  exists rs,
    _create_regions_toroidal ds_single_null = inr rs /\
    cover_count rs 4 4 = 0%nat /\ cover_count rs 3 4 = 1%nat.
Proof.
  destruct (single_null_coverage ds_single_null) as (rs & Hrs & Hc).
  - reflexivity.
  - unfold well_ordered; cbn; lia.
  - exists rs. split; [exact Hrs|].
    split; [rewrite Hc | rewrite Hc]; reflexivity.
Defined.

(** X19.  On a core or sol grid the single region is the whole adjusted
    domain, for every metadata: the partition needs no ordering of the
    breakpoints. *)
Theorem one_region_topologies_partition (ds : metadata.t)
    (Ht : _get_topology ds = "core" \/ _get_topology ds = "sol") :
  exists k r,
    _create_regions_toroidal ds = inr [(k, r)] /\
    rect_of r = (0, nx (adjust_breakpoints ds), 0, ny (adjust_breakpoints ds))
    /\ partitions [(k, r)] (adjust_breakpoints ds).
Proof.
  unfold _create_regions_toroidal.
  destruct Ht as [Ht|Ht]; rewrite Ht; autorewrite with tables;
    generalize (adjust_breakpoints ds); intros b.
  - eexists; eexists. split; [run_table; reflexivity|].
    split; [reflexivity|].
    apply partitions_of_count. intros x y.
    destruct (count_core b x y) as (rs & Hrs & Hc).
    revert Hrs. run_table. intros [= <-]. exact Hc.
  - eexists; eexists. split; [run_table; reflexivity|].
    split; [reflexivity|].
    apply partitions_of_count. intros x y.
    destruct (count_sol b x y) as (rs & Hrs & Hc).
    revert Hrs. run_table. intros [= <-]. exact Hc.
Qed.

Lemma one_region_topologies_partition_witness :
  exists k r,
    _create_regions_toroidal ds_core = inr [(k, r)] /\
    rect_of r = (0, 4, 0, 8).
Proof.
  destruct (one_region_topologies_partition ds_core)
    as (k & r & Hrs & Hrect & _).
  - left; reflexivity.
  - exists k, r. split; [exact Hrs | exact Hrect].
Defined.

(** ** Stripping the metadata of a dataset *)

Lemma lookup_In {A : Type} (d : dict A) (k : string) (v : A) :
  unique_keys d -> In (k, v) d -> boutdataset.lookup d k = inr v.
Proof.
  intros Hu Hin. unfold boutdataset.lookup.
  now rewrite (In_getitem d k v Hu Hin).
Qed.

Lemma setitem_absent {A : Type} (d : dict A) (k : string) (v : A) :
  ~ In k (keys d) -> setitem d k v = (d ++ [(k, v)])%list.
Proof.
  induction d as [|[k' v'] d IH]; cbn; [reflexivity|].
  intros Hn. destruct (String.eqb_spec k k') as [->|Hne]; [tauto|].
  f_equal. apply IH. tauto.
Qed.

Lemma dict_of_zip_fresh {A : Type} (ks : list string) (vs : list A)
    (acc : dict A) :
  NoDup ks -> (forall k, In k ks -> ~ In k (keys acc)) ->
  fold_left (fun d kv => setitem d (fst kv) (snd kv)) (combine ks vs) acc
  = (acc ++ combine ks vs)%list.
Proof.
  revert vs acc. induction ks as [|k ks IH]; intros vs acc Hnd Hfresh.
  - cbn. now rewrite app_nil_r.
  - destruct vs as [|v vs]; cbn; [now rewrite app_nil_r|].
    inversion Hnd as [|? ? Hnotin Hnd']; subst.
    rewrite setitem_absent by (apply Hfresh; now left).
    rewrite IH; [now rewrite <- app_assoc| assumption |].
    intros k' Hk'. unfold keys. rewrite map_app, in_app_iff. cbn.
    intros [H|[H|[]]].
    + apply (Hfresh k'); [now right | exact H].
    + congruence.
Qed.

Lemma dict_of_zip_combine {A : Type} (ks : list string) (vs : list A) :
  NoDup ks -> boutdataset.dict_of_zip ks vs = combine ks vs.
Proof.
  intros Hnd. unfold boutdataset.dict_of_zip.
  rewrite dict_of_zip_fresh; [reflexivity | assumption |].
  intros k _ [].
Qed.

Section Strip.

Context {V : Type}.
Variable ds : boutdataset.Dataset V.
Hypothesis Hu : unique_keys ds.

Let scalar (kv : string * boutdataset.variable V) : bool :=
  negb (boutdataset.has_txyz (snd kv)).

Lemma scalar_vars_of_entries (l : list (string * boutdataset.variable V)) :
  incl l ds ->
  boutdataset.scalar_vars_of ds (keys l) = inr (keys (filter scalar l)).
Proof.
  unfold keys.
  induction l as [|[k v] l IH]; intros Hincl; cbn; [reflexivity|].
  rewrite (lookup_In ds k v Hu) by (apply Hincl; now left).
  rewrite IH by (intros x Hx; apply Hincl; now right).
  change (scalar (k, v)) with (negb (boutdataset.has_txyz v)).
  destruct (boutdataset.has_txyz v); reflexivity.
Qed.

Lemma metadata_vals_of_entries (l : list (string * boutdataset.variable V)) :
  incl l ds ->
  (forall k v, In (k, v) l -> exists x, boutdataset.values v = [x]) ->
  exists vals,
    boutdataset.metadata_vals_of ds (keys l) = inr vals /\
    Forall2 (fun kv x => boutdataset.values (snd kv) = [x]) l vals.
Proof.
  unfold keys.
  induction l as [|[k v] l IH]; intros Hincl Hone; cbn.
  - exists []; split; [reflexivity | constructor].
  - rewrite (lookup_In ds k v Hu) by (apply Hincl; now left).
    destruct (Hone k v (or_introl eq_refl)) as [x Hx]. rewrite Hx. cbn.
    destruct IH as (vals & Hvals & Hall).
    + intros y Hy; apply Hincl; now right.
    + intros k' v' Hin; apply (Hone k' v'); now right.
    + rewrite Hvals. exists (x :: vals); split; [reflexivity|].
      constructor; [exact Hx | exact Hall].
Qed.

Lemma metadata_vals_of_bad (l : list (string * boutdataset.variable V)) :
  incl l ds ->
  (exists k v, In (k, v) l /\ length (boutdataset.values v) <> 1%nat) ->
  exists msg,
    boutdataset.metadata_vals_of ds (keys l)
    = inl (boutdataset.ValueError msg).
Proof.
  unfold keys.
  induction l as [|[k v] l IH]; intros Hincl (k0 & v0 & Hin & Hlen);
    [contradiction|].
  cbn. rewrite (lookup_In ds k v Hu) by (apply Hincl; now left).
  destruct (boutdataset.values v) as [|x [|x' rest]] eqn:Hv; cbn.
  - eexists; reflexivity.
  - destruct Hin as [[= <- <-]|Hin]; [rewrite Hv in Hlen; now cbn in Hlen|].
    destruct IH as [msg Hmsg].
    + intros y Hy; apply Hincl; now right.
    + exists k0, v0; split; assumption.
    + rewrite Hmsg. eexists; reflexivity.
  - eexists; reflexivity.
Qed.

Lemma drop_scalar_vars :
  boutdataset.drop ds (keys (filter scalar ds))
  = filter (fun kv => boutdataset.has_txyz (snd kv)) ds.
Proof.
  unfold boutdataset.drop. apply filter_ext_in. intros [k v] Hin. cbn [fst snd].
  destruct (boutdataset.has_txyz v) eqn:Hv.
  - apply negb_true_iff.
    destruct (existsb (String.eqb k) (keys (filter scalar ds))) eqn:E;
      [|reflexivity].
    apply existsb_exists in E. destruct E as (k' & Hk' & Heq).
    apply String.eqb_eq in Heq; subst k'.
    unfold keys in Hk'. apply in_map_iff in Hk'.
    destruct Hk' as ([k1 v1] & Hfst & Hin1). cbn in Hfst; subst k1.
    apply filter_In in Hin1. destruct Hin1 as [Hin1 Hs].
    assert (v1 = v).
    { pose proof (In_getitem ds k v1 Hu Hin1) as G1.
      pose proof (In_getitem ds k v Hu Hin) as G2. congruence. }
    subst v1. unfold scalar in Hs; cbn in Hs. rewrite Hv in Hs. discriminate.
  - apply negb_false_iff. apply existsb_exists. exists k.
    split; [|apply String.eqb_refl].
    unfold keys. apply in_map_iff. exists (k, v). split; [reflexivity|].
    apply filter_In. split; [exact Hin|].
    unfold scalar; cbn. now rewrite Hv.
Qed.

Lemma unique_keys_filter (f : string * boutdataset.variable V -> bool) :
  unique_keys (filter f ds).
Proof.
  revert Hu. unfold unique_keys, keys. clear.
  induction ds as [|[k v] d IH]; cbn; intros Hnd; [constructor|].
  inversion Hnd as [|? ? Hnotin Hnd']; subst.
  destruct (f (k, v)); cbn; [constructor|]; auto.
  intros Hin. apply Hnotin. apply in_map_iff in Hin.
  destruct Hin as (x & Hx & Hin). apply filter_In in Hin.
  apply in_map_iff. exists x. tauto.
Qed.

End Strip.

(** X20.  On a dataset in which every variable without a [t], [x], [y] or [z]
    dimension holds exactly one value, [_strip_metadata] returns the
    variables that have such a dimension, unchanged and in order, and a
    metadata dictionary holding, in order, one entry per other variable: its
    name and its single value. *)
Theorem strip_metadata_splits {V : Type} (ds : boutdataset.Dataset V)
    (Hu : unique_keys ds)
    (Hone : forall k v,
        In (k, v) ds -> boutdataset.has_txyz v = false ->
        exists x, boutdataset.values v = [x]) :
  exists data metadata,
    boutdataset._strip_metadata ds = inr (data, metadata) /\
    data = filter (fun kv => boutdataset.has_txyz (snd kv)) ds /\
    Forall2 (fun kv m => fst m = fst kv /\
                         boutdataset.values (snd kv) = [snd m])
            (filter (fun kv => negb (boutdataset.has_txyz (snd kv))) ds)
            metadata.
Proof.
  set (scalar := fun kv : string * boutdataset.variable V =>
                   negb (boutdataset.has_txyz (snd kv))).
  unfold boutdataset._strip_metadata.
  rewrite (scalar_vars_of_entries ds Hu ds (incl_refl ds)).
  destruct (metadata_vals_of_entries ds Hu (filter scalar ds))
    as (vals & Hvals & Hall).
  - intros x Hx. apply filter_In in Hx. tauto.
  - intros k v Hin. apply filter_In in Hin. destruct Hin as [Hin Hs].
    apply (Hone k v Hin). unfold scalar in Hs; cbn in Hs.
    now apply negb_true_iff in Hs.
  - fold scalar. rewrite Hvals.
    eexists; eexists. split; [reflexivity|].
    split; [apply (drop_scalar_vars ds Hu)|].
    rewrite dict_of_zip_combine by (apply (unique_keys_filter ds Hu)).
    clear Hvals. induction Hall as [|kv x l vals Hx Hall IH]; cbn;
      constructor; auto.
Qed.

(** X21.  [_strip_metadata] fails with [ValueError], returning no metadata at
    all, as soon as one variable without a [t], [x], [y] or [z] dimension
    holds no value or more than one. *)
Theorem strip_metadata_rejects_arrays {V : Type}
    (ds : boutdataset.Dataset V) (k : string) (v : boutdataset.variable V)
    (Hu : unique_keys ds) (Hin : In (k, v) ds)
    (Hs : boutdataset.has_txyz v = false)
    (Hlen : length (boutdataset.values v) <> 1%nat) :
  exists msg,
    boutdataset._strip_metadata ds = inl (boutdataset.ValueError msg).
Proof.
  set (scalar := fun kv : string * boutdataset.variable V =>
                   negb (boutdataset.has_txyz (snd kv))).
  unfold boutdataset._strip_metadata.
  rewrite (scalar_vars_of_entries ds Hu ds (incl_refl ds)).
  destruct (metadata_vals_of_bad ds Hu (filter scalar ds)) as [msg Hmsg].
  - intros x Hx. apply filter_In in Hx. tauto.
  - exists k, v. split; [|exact Hlen]. apply filter_In. split; [exact Hin|].
    unfold scalar; cbn. now rewrite Hs.
  - fold scalar. rewrite Hmsg. exists msg; reflexivity.
Qed.

(** X22.  Stripping is idempotent: the dataset [_strip_metadata] returns has
    no metadata left, and stripping it again returns it unchanged with an
    empty metadata dictionary. *)
Theorem strip_metadata_idempotent {V : Type} (ds data : boutdataset.Dataset V)
    (metadata : dict V) (Hu : unique_keys ds)
    (H : boutdataset._strip_metadata ds = inr (data, metadata)) :
  boutdataset._strip_metadata data = inr (data, []).
Proof.
  assert (Hdata : data = filter (fun kv => boutdataset.has_txyz (snd kv)) ds).
  { revert H. unfold boutdataset._strip_metadata.
    rewrite (scalar_vars_of_entries ds Hu ds (incl_refl ds)).
    destruct (boutdataset.metadata_vals_of _ _); [discriminate|].
    intros [= <- _]. apply (drop_scalar_vars ds Hu). }
  assert (Hu' : unique_keys data)
    by (rewrite Hdata; apply (unique_keys_filter ds Hu)).
  assert (Hnone : filter (fun kv => negb (boutdataset.has_txyz (snd kv)))
                         data = []).
  { rewrite Hdata. clear. induction ds as [|[k v] d IH]; cbn;
      [reflexivity|].
    destruct (boutdataset.has_txyz v) eqn:E; cbn; rewrite ?E; exact IH. }
  unfold boutdataset._strip_metadata.
  rewrite (scalar_vars_of_entries data Hu' data (incl_refl data)), Hnone.
  cbn. f_equal. f_equal.
  unfold boutdataset.drop. cbn.
  clear. induction data as [|kv d IH]; cbn; [reflexivity|].
  now rewrite IH.
Qed.

Lemma dataset_example_unique : unique_keys dataset_example.
Proof.
  unfold unique_keys; cbn.
  repeat (apply NoDup_cons; [cbn; intuition discriminate|]).
  apply NoDup_nil.
Qed.

Lemma strip_metadata_splits_witness :
  exists data metadata,
    boutdataset._strip_metadata dataset_example = inr (data, metadata) /\
    keys data = ["n"; "x"] /\
    metadata = [("NXPE", 2); ("MYG", 3)].
Proof.
  destruct (strip_metadata_splits dataset_example dataset_example_unique)
    as (data & metadata & Hs & _).
  - intros k v Hin Hv. cbn in Hin.
    repeat (destruct Hin as [Hin|Hin];
            [injection Hin as <- <-;
             first [discriminate Hv | eexists; reflexivity]|]).
    contradiction.
  - exists data, metadata. split; [exact Hs|].
    vm_compute in Hs. injection Hs as <- <-. split; reflexivity.
Defined.

Lemma strip_metadata_rejects_arrays_witness :
  exists msg,
    boutdataset._strip_metadata dataset_with_bounds
    = inl (boutdataset.ValueError msg).
Proof.
  apply (strip_metadata_rejects_arrays dataset_with_bounds "bounds"
           (boutdataset.mkvariable ["w"] [0; 1])).
  - unfold unique_keys; cbn.
    repeat (apply NoDup_cons; [cbn; intuition discriminate|]).
    apply NoDup_nil.
  - cbn; tauto.
  - reflexivity.
  - cbn; discriminate.
Defined.

Lemma strip_metadata_idempotent_witness :
  boutdataset._strip_metadata
    [("n", boutdataset.mkvariable ["t"; "x"; "y"] [1; 2; 3; 4]);
     ("x", boutdataset.mkvariable ["x"] [0; 1])]
  = inr ([("n", boutdataset.mkvariable ["t"; "x"; "y"] [1; 2; 3; 4]);
          ("x", boutdataset.mkvariable ["x"] [0; 1])], []).
Proof.
  apply (strip_metadata_idempotent dataset_example _
           [("NXPE", 2); ("MYG", 3)] dataset_example_unique).
  reflexivity.
Defined.

(** ** More on slices, names and the dispatch *)

(** X23.  [getSlices] returns the slices of the specification, each bound
    moved outward by the guard width on the sides that have a connection,
    exactly when the region has no outer connection or [mxg = 0]. *)
Theorem getSlices_meets_spec_iff (r : Region) (mxg myg : Z) :
  getSlices r mxg myg = getSlices_spec r mxg myg <->
  connection_outer r = None \/ mxg = 0.
Proof.
  unfold getSlices, getSlices_spec.
  destruct (connection_inner r), (connection_outer r) as [o|];
    cbn [is_not_None]; split; intros H;
    try (left; reflexivity); try reflexivity;
    try (right; injection H; intros; lia);
    destruct H as [H|H]; try discriminate; subst;
    rewrite ?Z.add_0_r, ?Z.sub_0_r; reflexivity.
Qed.

(** X24.  In the region set of every grid the [name] attributes of the
    regions are pairwise distinct. *)
Theorem region_names_distinct (ds : metadata.t) :
  exists rs,
    _create_regions_toroidal ds = inr rs /\
    NoDup (map (fun kr => name (snd kr)) rs).
Proof.
  by_topology ds E.
  all: generalize (adjust_breakpoints ds); intros b.
  all: eexists; split; [run_table; reflexivity|].
  all: cbn [map snd name].
  all: repeat (apply NoDup_cons; [cbn [In]; intuition discriminate|]).
  all: apply NoDup_nil.
Qed.

(** X25.  The dispatch on the topology tag returns a region set for each of
    the seven tags and raises [NotImplementedError], with the tag in its
    message, for every other string. *)
Theorem unknown_topology_raises (topology : string) (b : breakpoints) :
  (In topology ["disconnected-double-null"; "connected-double-null";
                "single-null"; "limiter"; "core"; "sol"; "xpoint"] ->
   exists rs, regions_of_topology topology b = inr rs) /\
  (~ In topology ["disconnected-double-null"; "connected-double-null";
                  "single-null"; "limiter"; "core"; "sol"; "xpoint"] ->
   regions_of_topology topology b =
   inl (NotImplementedError
          ("Topology '" ++ topology ++ "' is not implemented"))).
Proof.
  split.
  - intros H. cbn [In] in H.
    repeat (destruct H as [H|H];
            [subst topology; eexists; run_table; reflexivity|]).
    contradiction.
  - intros H. unfold regions_of_topology.
    repeat match goal with
           | |- context [String.eqb topology ?s] =>
               destruct (String.eqb_spec topology s) as [->|?];
               [exfalso; apply H; cbn [In]; tauto|]
           end.
    reflexivity.
Qed.
